(** * Easegress filters: API aggregator, certificate extractor, fallback

    A shallow embedding of three Go packages,

    - [pkg/filters/apiaggregator]   (module [apiaggregator]),
    - [pkg/filters/certextractor]   (module [certextractor]),
    - [pkg/protocols/httpprot/fallback] (module [fallback]),

    together with the small part of the Go runtime and of the HTTP
    request/response model they rest on.  Definitions come first, the
    properties checked against them follow. *)

From Stdlib Require Import ZArith Lia Permutation.
From Stdlib Require Import Strings.Byte.
From stdpp Require Import base option list gmap strings fin_maps pretty.

Local Open Scope Z_scope.

(* ===================================================================== *)
(** ** The Go runtime pieces the filters use *)
(* ===================================================================== *)

Module Go.

(** Error values: [io.EOF] and everything else. [nil] is [None] at the
    use sites ([option error]). *)
Inductive error : Type :=
| EOF
| ErrOther (msg : string).

#[global] Instance error_eq_dec : EqDecision error.
Proof. solve_decision. Defined.

(** Fixed-width signed integers are integers of [Z] wrapped into
    [-2^(w-1), 2^(w-1)). *)
Definition wrap (w : Z) (z : Z) : Z :=
  (z + 2 ^ (w - 1)) mod 2 ^ w - 2 ^ (w - 1).

Definition int64 (z : Z) : Z := wrap 64 z.
Definition int16 (z : Z) : Z := wrap 16 z.

Definition in_int64 (z : Z) : Prop := - 2 ^ 63 <= z < 2 ^ 63.
Definition in_int16 (z : Z) : Prop := - 2 ^ 15 <= z < 2 ^ 15.

(** A computation that may panic. *)
Inductive exec (A : Type) : Type :=
| Done (a : A)
| Panic (msg : string).
Arguments Done {A} a.
Arguments Panic {A} msg.

Definition exec_bind {A B} (m : exec A) (k : A → exec B) : exec B :=
  match m with
  | Done a => k a
  | Panic msg => Panic msg
  end.

(** [x % y] on signed integers: truncated remainder, panics on a zero
    divisor. *)
Definition rem (x y : Z) : exec Z :=
  if y =? 0 then Panic "integer divide by zero" else Done (Z.rem x y).

(** [s[i]] with a signed index: out of range panics. *)
Definition index {A} (s : list A) (i : Z) : exec A :=
  if (i <? 0) || (Z.of_nat (length s) <=? i)
  then Panic "index out of range"
  else match s !! Z.to_nat i with
       | Some a => Done a
       | None => Panic "index out of range"
       end.

(** An [io.Reader], described by what it will deliver: the bytes still
    to come, then the error that ends the stream ([EOF] for a clean
    end). *)
Record Reader : Type := {
  pending : list byte;
  ending : error;
}.

(** [bytes.NewReader(b)]. *)
Definition NewReader (b : list byte) : Reader :=
  {| pending := b; ending := EOF |}.

(** [io.Copy(dst, io.LimitReader(src, n))] into an empty buffer: the
    bytes written, their count and the error.  A limit that is not
    positive reads nothing; a clean end of the source is not an error for
    [io.Copy]. *)
Definition CopyLimited (src : Reader) (n : Z) : list byte * Z * option error :=
  if n <=? 0 then ([], 0, None)
  else if n <=? Z.of_nat (length (pending src))
  then (take (Z.to_nat n) (pending src), n, None)
  else (pending src, Z.of_nat (length (pending src)),
        match ending src with
        | EOF => None
        | e => Some e
        end).

(** [io.CopyN(dst, src, n)]:
<<
    written, err = Copy(dst, LimitReader(src, n))
    if written == n { return n, nil }
    if written < n && err == nil { err = EOF }
    return
>> *)
Definition CopyN (src : Reader) (n : Z) : list byte * Z * option error :=
  let '(buf, written, err) := CopyLimited src n in
  if written =? n then (buf, n, None)
  else if (written <? n) && bool_decide (err = None) then (buf, written, Some EOF)
  else (buf, written, err).

(** [strconv.Itoa] on a length. *)
Definition Itoa (n : Z) : string := pretty n.

End Go.

(* ===================================================================== *)
(** ** HTTP request and response model ([pkg/protocols/httpprot]) *)
(* ===================================================================== *)

Module httpprot.

(** Header names are looked up under the form the header store gives
    them; the store's normalisation of a name is a parameter. *)
Class HeaderNames : Type := canonicalKey : string → string.

Section header.
Context `{HeaderNames}.

(** Modelled from the spec: the header map of a request or response
    ("header map" of the request/response context), a map from a name to
    the values recorded under it. [HeaderSet] replaces the values of a
    name, [HeaderAdd] appends one. *)
Definition HeaderSet (h : gmap string (list string)) (key value : string)
  : gmap string (list string) :=
  <[canonicalKey key := [value]]> h.

Definition HeaderValues (h : gmap string (list string)) (key : string)
  : list string :=
  default [] (h !! canonicalKey key).

Definition HeaderAdd (h : gmap string (list string)) (key value : string)
  : gmap string (list string) :=
  <[canonicalKey key := HeaderValues h key ++ [value]]> h.

Definition HeaderGet (h : gmap string (list string)) (key : string)
  : option string :=
  head (HeaderValues h key).

End header.

(** Distinguished-name fields of [crypto/x509/pkix.Name]. *)
Record pkixName : Type := {
  Country : list string;
  Organization : list string;
  OrganizationalUnit : list string;
  Locality : list string;
  Province : list string;
  StreetAddress : list string;
  PostalCode : list string;
  SerialNumber : string;
  CommonName : string;
}.

Record Certificate : Type := {
  Subject : pkixName;
  Issuer : pkixName;
}.

(** [tls.ConnectionState], as far as it is read. *)
Record ConnectionState : Type := {
  PeerCertificates : list Certificate;
}.

(** Modelled from the spec: the request of a request context ("request
    method, URL, headers, body stream"), with the TLS state of the
    connection it came in on. *)
Record Request : Type := {
  Method : string;
  URLPath : string;
  ReqHeader : gmap string (list string);
  ReqPayload : Go.Reader;
  TLS : option ConnectionState;
}.

(** Modelled from the spec: the response of a request context ("a
    mutable response with settable status code, header map, and
    replaceable payload stream"). A payload without a reader is [None]. *)
Record Response : Type := {
  StatusCode : Z;
  RespHeader : gmap string (list string);
  RespPayload : option Go.Reader;
}.

Definition SetStatusCode (code : Z) (w : Response) : Response :=
  {| StatusCode := code; RespHeader := RespHeader w; RespPayload := RespPayload w |}.

Definition SetHeader `{HeaderNames} (key value : string) (w : Response) : Response :=
  {| StatusCode := StatusCode w;
     RespHeader := HeaderSet (RespHeader w) key value;
     RespPayload := RespPayload w |}.

Definition SetPayload (r : Go.Reader) (w : Response) : Response :=
  {| StatusCode := StatusCode w; RespHeader := RespHeader w; RespPayload := Some r |}.

Definition AddHeader `{HeaderNames} (key value : string) (r : Request) : Request :=
  {| Method := Method r; URLPath := URLPath r;
     ReqHeader := HeaderAdd (ReqHeader r) key value;
     ReqPayload := ReqPayload r; TLS := TLS r |}.

Definition SetURLPath (path : string) (r : Request) : Request :=
  {| Method := Method r; URLPath := path; ReqHeader := ReqHeader r;
     ReqPayload := ReqPayload r; TLS := TLS r |}.

(** Modelled from the spec: the name of the content-length header
    ([httpprot.KeyContentLength]). *)
Definition KeyContentLength : string := "Content-Length".

(** [net/http] status codes. *)
Definition StatusOK : Z := 200.
Definition StatusBadRequest : Z := 400.
Definition StatusRequestEntityTooLarge : Z := 413.
Definition StatusInternalServerError : Z := 500.
Definition StatusServiceUnavailable : Z := 503.
Definition StatusInsufficientStorage : Z := 507.

End httpprot.

(* ===================================================================== *)
(** ** Request context ([pkg/context]) *)
(* ===================================================================== *)

Module context.
Import httpprot.

(** The diagnostic tags the aggregator attaches. The source renders each
    with [fmt.Sprintf]; the tag keeps the message kind and its
    arguments. *)
Inductive Tag : Type :=
| TagRequestBodyExceed (limit : Z)
| TagReadRequestBodyFailed (err : option Go.error)
| TagResponseBodyExceed (limit : Z)
| TagReadResponseBodyFailed (err : option Go.error)
| TagUnmarshalFailed (resp : list byte)
| TagMarshalFailed.

(** Modelled from the spec: the request/response context handed to
    [Handle], with the free-text tags attached so far. *)
Record Context : Type := {
  CtxRequest : Request;
  CtxResponse : Response;
  Tags : list Tag;
}.

Definition AddTag (t : Tag) (ctx : Context) : Context :=
  {| CtxRequest := CtxRequest ctx; CtxResponse := CtxResponse ctx;
     Tags := Tags ctx ++ [t] |}.

Definition onResponse (f : Response → Response) (ctx : Context) : Context :=
  {| CtxRequest := CtxRequest ctx; CtxResponse := f (CtxResponse ctx);
     Tags := Tags ctx |}.

Definition onRequest (f : Request → Request) (ctx : Context) : Context :=
  {| CtxRequest := f (CtxRequest ctx); CtxResponse := CtxResponse ctx;
     Tags := Tags ctx |}.

End context.

(* ===================================================================== *)
(** ** JSON values and the codec ([json-iterator/go]) *)
(* ===================================================================== *)

Module json.

(** What [interface{}] holds after decoding. *)
#[local] Unset Elimination Schemes.
Inductive Value : Type :=
| Null
| Bool (b : bool)
| Number (n : Z)
| Str (s : string)
| Array (elems : list Value)
| Object (members : list (string * Value)).
#[local] Set Elimination Schemes.

(** The reading of a body as the target [map[string]interface{}]: a JSON
    object, the literal [null], or a decoding error. *)
Inductive decoded : Type :=
| DecObject (o : gmap string Value)
| DecNull
| DecError.

(** What the aggregator encodes: one map, or a slice of maps. A [nil]
    map is [None]. *)
Inductive Document : Type :=
| DocObject (m : option (gmap string Value))
| DocArray (elems : list (option (gmap string Value))).

(** The codec itself is a library outside the repository. *)
Class Codec : Type := {
  decode : list byte → decoded;
  Marshal : Document → option (list byte);
}.

(** [jsoniter.Unmarshal(data, &m)] for [m] a [map[string]interface{}]:
    an object stores its members into the map already there (made when
    [nil]), keeping the other entries; [null] resets the map to [nil];
    anything else is an error ([None]). *)
Definition Unmarshal `{Codec} (data : list byte) (m : option (gmap string Value))
  : option (option (gmap string Value)) :=
  match decode data with
  | DecObject o => Some (Some (o ∪ default ∅ m))
  | DecNull => Some None
  | DecError => None
  end.

End json.

(* ===================================================================== *)
(** ** Filter lifecycle ([pkg/filters]) *)
(* ===================================================================== *)

Module filters.

(** The lifecycle calls made on filter instances, in the order made. An
    instance is named by its kind and its instance name. *)
Inductive Call : Type :=
| CallClose (kind name : string)
| CallInit (kind name : string).

#[global] Instance Call_eq_dec : EqDecision Call.
Proof. solve_decision. Defined.

Section lifecycle.
(** What filters hold on to (connections, timers, ...). *)
Context {Resources : Type}.

(** The log of lifecycle calls and the resources filters hold. *)
Record World : Type := {
  calls : list Call;
  resources : Resources;
}.

(** A lifecycle step: it may panic, and it leaves a world behind either
    way. *)
Definition Run (A : Type) : Type := World → Go.exec A * World.

Definition ret {A} (a : A) : Run A := fun w => (Go.Done a, w).

Definition bind {A B} (m : Run A) (k : A → Run B) : Run B :=
  fun w =>
    match m w with
    | (Go.Done a, w') => k a w'
    | (Go.Panic msg, w') => (Go.Panic msg, w')
    end.

Definition panic {A} (msg : string) : Run A := fun w => (Go.Panic msg, w).

Definition record (c : Call) : Run unit :=
  fun w => (Go.Done tt, {| calls := calls w ++ [c]; resources := resources w |}).

Definition release (f : Resources → Resources) : Run unit :=
  fun w => (Go.Done tt, {| calls := calls w; resources := f (resources w) |}).

(** The part of the [filters.Filter] interface a successor generation
    uses of its predecessor: its identity and its [Close]. *)
Record Filter : Type := {
  FilterKind : string;
  FilterName : string;
  FilterClose : Resources → Resources;
}.

(** A call of [f.Close()] through the interface. *)
Definition Close (f : Filter) : Run unit :=
  bind (record (CallClose (FilterKind f) (FilterName f)))
       (fun _ => release (FilterClose f)).

End lifecycle.
Arguments World : clear implicits.
Arguments Run : clear implicits.
Arguments Filter : clear implicits.

End filters.

(* ===================================================================== *)
(** ** [pkg/filters/apiaggregator] *)
(* ===================================================================== *)

Module apiaggregator.
Import httpprot context.

(** Kind is the kind of APIAggregator. *)
Definition Kind : string := "APIAggregator".

Definition resultFailed : string := "failed".

(** What the package takes from other packages: the status code
    [context.EGStatusBadResponse], [rawconfigtrafficcontroller.Kind],
    [time.ParseDuration], the path adaptor ([pathadaptor.New(spec).Adapt])
    and whether [http.NewRequestWithContext] accepts a method and URL. *)
Class Collaborators : Type := {
  EGStatusBadResponse : Z;
  rctcKind : string;
  ParseDuration : string → option Z;
  PathSpec : Type;
  PathAdapt : PathSpec → string → string;
  validRequest : string → string → bool;
}.

(** The request a worker passes to its pipeline ([*http.Request]). *)
Record StdRequest : Type := {
  StdMethod : string;
  StdURL : string;
  StdBody : option (list byte);
  StdTimeout : option Z;
}.

(** A pipeline's handler: from the request to the response it leaves in
    the worker's own context ([None]: no response). *)
Record RawConfigTrafficController : Type := {
  GetHTTPPipeline : string → option (StdRequest → option Response);
}.

Inductive ControllerInstance : Type :=
| InstanceRCTC (r : RawConfigTrafficController)
| InstanceOther.

Record Supervisor : Type := {
  GetSystemController : string → option ControllerInstance;
}.

(** A step of [Handle]: it goes on with a value or returns a result from
    [Handle], and leaves a context behind. *)
Inductive Outcome (A : Type) : Type :=
| Continue (a : A)
| Return (result : string).
Arguments Continue {A} a.
Arguments Return {A} result.

Definition Act (A : Type) : Type := Context → Outcome A * Context.

Definition andThen {A B} (m : Act A) (k : A → Act B) : Act B :=
  fun ctx =>
    match m ctx with
    | (Continue a, ctx') => k a ctx'
    | (Return r, ctx') => (Return r, ctx')
    end.

Definition finish (m : Act string) (ctx : Context) : string * Context :=
  match m ctx with
  | (Continue r, ctx') => (r, ctx')
  | (Return r, ctx') => (r, ctx')
  end.

Section aggregator.
Context `{HeaderNames} `{json.Codec} `{Collaborators}.

(** Pipeline is the single API HTTP Pipeline in default namespace. The
    header adaptor spec of the source is never read and is left out. *)
Record Pipeline : Type := {
  Name : string;
  Method : string;
  Path : option PathSpec;
  DisableBody : bool;
  pa : option (string → string);
}.

(** Spec is APIAggregator's spec. *)
Record Spec : Type := {
  SpecName : string;
  Super : Supervisor;
  MaxBodyBytes : Z;
  PartialSucceed : bool;
  Timeout : string;
  MergeResponse : bool;
  Pipelines : list Pipeline;
  timeout : option Z;
}.

(** The schema tag of [MaxBodyBytes]: [minimum=0,maximum=102400]. *)
Definition schemaMaxBodyBytes (n : Z) : bool := (0 <=? n) && (n <=? 102400).

(** The comment on [MaxBodyBytes]: "MaxBodyBytes in [0, 10MB]". *)
Definition documentedMaxBodyBytes (n : Z) : bool :=
  (0 <=? n) && (n <=? 10 * 1024 * 1024).

(** APIAggregator is a filter to aggregate several HTTP API responses. *)
Record APIAggregator : Type := {
  spec : Spec;
  rctc : RawConfigTrafficController;
}.

(** *** Lifecycle *)

Section lifecycle.
Context {Resources : Type}.

Definition setPa (p : Pipeline) : Pipeline :=
  match Path p with
  | Some ps =>
      {| Name := Name p; Method := Method p; Path := Path p;
         DisableBody := DisableBody p; pa := Some (PathAdapt ps) |}
  | None => p
  end.

Definition reload (s : Spec) : Spec :=
  {| SpecName := SpecName s; Super := Super s;
     MaxBodyBytes := MaxBodyBytes s; PartialSucceed := PartialSucceed s;
     Timeout := Timeout s; MergeResponse := MergeResponse s;
     Pipelines := setPa <$> Pipelines s;
     timeout :=
       if bool_decide (Timeout s ≠ "")
       then match ParseDuration (Timeout s) with
            | Some d => Some d
            | None => timeout s
            end
       else timeout s |}.

(** Init initializes APIAggregator: every field of the receiver is
    overwritten, so the receiver is the result. *)
Definition Init (s : Spec) : filters.Run Resources APIAggregator :=
  filters.bind (filters.record (filters.CallInit Kind (SpecName s))) (fun _ =>
  match GetSystemController (Super s) rctcKind with
  | None => filters.panic "BUG: raw config traffic controller not found"
  | Some InstanceOther => filters.panic "BUG: want *RawConfigTrafficController"
  | Some (InstanceRCTC r) => filters.ret {| spec := reload s; rctc := r |}
  end).

(** Inherit inherits previous generation of APIAggregator. *)
Definition Inherit (s : Spec) (previousGeneration : filters.Filter Resources)
  : filters.Run Resources APIAggregator :=
  filters.bind (filters.Close previousGeneration) (fun _ => Init s).

(** Close closes APIAggregator. *)
Definition Close (aa : APIAggregator) : Resources → Resources := fun r => r.

Definition asFilter (aa : APIAggregator) : filters.Filter Resources :=
  {| filters.FilterKind := Kind;
     filters.FilterName := SpecName (spec aa);
     filters.FilterClose := Close aa |}.

End lifecycle.

(** *** Handle *)

(** The inbound body, read into [buff] when [MaxBodyBytes > 0]. *)
Definition readRequestBody (aa : APIAggregator) : Act (list byte) :=
  fun ctx =>
    let max := MaxBodyBytes (spec aa) in
    if 0 <? max then
      let '(buff, written, err) :=
        Go.CopyN (ReqPayload (CtxRequest ctx)) (Go.int64 (max + 1)) in
      if max <? written then
        (Return resultFailed,
         onResponse (SetStatusCode StatusRequestEntityTooLarge)
           (AddTag (TagRequestBodyExceed max) ctx))
      else if bool_decide (err ≠ Some Go.EOF) then
        (Return resultFailed,
         onResponse (SetStatusCode StatusBadRequest)
           (AddTag (TagReadRequestBodyFailed err) ctx))
      else (Continue buff, ctx)
    else (Continue [], ctx).

(** [newHTTPReq]. The URL is the request's own ([httpreq.Std().URL] is a
    pointer): an adapted path stays in the request, also for the
    sub-targets that follow. *)
Definition newHTTPReq (aa : APIAggregator) (p : Pipeline) (buff : list byte)
    (ctx : Context) : option StdRequest * Context :=
  let httpreq := CtxRequest ctx in
  let method :=
    if bool_decide (Method p ≠ "") then Method p else httpprot.Method httpreq in
  let ctx' :=
    match pa p with
    | Some adapt => onRequest (SetURLPath (adapt (URLPath httpreq))) ctx
    | None => ctx
    end in
  let url := URLPath (CtxRequest ctx') in
  let body := if DisableBody p then None else Some buff in
  (if validRequest method url
   then Some {| StdMethod := method; StdURL := url; StdBody := body;
                StdTimeout := timeout (spec aa) |}
   else None,
   ctx').

(** The dispatch loop as far as it builds requests: one job (pipeline
    name, request) per sub-target, or the early return when a request
    cannot be built. *)
Fixpoint buildRequests (aa : APIAggregator) (buff : list byte)
    (ps : list Pipeline) : Act (list (string * StdRequest)) :=
  match ps with
  | [] => fun ctx => (Continue [], ctx)
  | p :: rest => fun ctx =>
      match newHTTPReq aa p buff ctx with
      | (None, ctx') =>
          (Return resultFailed, onResponse (SetStatusCode StatusBadRequest) ctx')
      | (Some req, ctx') =>
          andThen (buildRequests aa buff rest)
                  (fun jobs ctx'' => (Continue ((Name p, req) :: jobs), ctx'')) ctx'
      end
  end.

(** The body of one worker goroutine: what it leaves in its slot. *)
Definition worker (aa : APIAggregator) (job : string * StdRequest)
  : option Response :=
  match GetHTTPPipeline (rctc aa) job.1 with
  | None => None
  | Some handler =>
      match handler job.2 with
      | Some rsp => if StatusCode rsp =? StatusOK then Some rsp else None
      | None => None
      end
  end.

(** A worker completes: worker [i] writes slot [i] of [httpResps]. *)
Definition complete (aa : APIAggregator) (jobs : list (string * StdRequest))
    (httpResps : list (option Response)) (i : nat) : list (option Response) :=
  match jobs !! i with
  | Some job => <[i := worker aa job]> httpResps
  | None => httpResps
  end.

(** The workers between [wg.Add] and [wg.Wait]: [sched] is the order in
    which they complete. *)
Definition dispatch (aa : APIAggregator) (sched : list nat)
    (jobs : list (string * StdRequest)) : list (option Response) :=
  foldl (complete aa jobs) (replicate (length jobs) None) sched.

Definition copyHTTPBody2Map (aa : APIAggregator) (body : Go.Reader)
    (ctx : Context) (data : gmap string (list byte)) (name : string)
  : string * Context * gmap string (list byte) :=
  let max := MaxBodyBytes (spec aa) in
  let '(respBody, written, err) := Go.CopyN body max in
  if max <? written then
    (resultFailed,
     onResponse (SetStatusCode StatusInsufficientStorage)
       (AddTag (TagResponseBodyExceed max) ctx),
     data)
  else if bool_decide (err ≠ Some Go.EOF) then
    (resultFailed,
     onResponse (SetStatusCode StatusInternalServerError)
       (AddTag (TagReadResponseBodyFailed err) ctx),
     data)
  else ("", ctx, <[name := respBody]> data).

(** "Get all Pipeline response' body": the loop over [httpResps], each
    slot with the pipeline of its index. *)
Fixpoint collect (aa : APIAggregator)
    (slots : list (Pipeline * option Response))
    (data : gmap string (list byte)) : Act (gmap string (list byte)) :=
  match slots with
  | [] => fun ctx => (Continue data, ctx)
  | (p, resp) :: rest => fun ctx =>
      match resp with
      | None =>
          if negb (PartialSucceed (spec aa)) then
            (Return resultFailed,
             onResponse (SetStatusCode StatusServiceUnavailable)
               (onResponse (SetHeader "X-EG-Aggregator" ("failed-in-" +:+ Name p)) ctx))
          else collect aa rest data ctx
      | Some r =>
          match RespPayload r with
          | Some body =>
              let '(res, ctx', data') := copyHTTPBody2Map aa body ctx data (Name p) in
              if negb (Nat.eqb (String.length res) 0) then (Return res, ctx')
              else collect aa rest data' ctx'
          | None => collect aa rest data ctx
          end
      end
  end.

(** [for _, resp := range data] of the merge branch: every body is
    unmarshalled into the one [result]; the body that fails is reported. *)
Fixpoint mergeBodies (bodies : list (list byte))
    (result : option (gmap string json.Value))
  : list byte + option (gmap string json.Value) :=
  match bodies with
  | [] => inr result
  | resp :: rest =>
      match json.Unmarshal resp result with
      | None => inl resp
      | Some result' => mergeBodies rest result'
      end
  end.

(** [for _, resp := range data] of the array branch: every body is
    unmarshalled into an [ele] of its own, appended to [result]. *)
Fixpoint appendBodies (bodies : list (list byte))
    (result : list (option (gmap string json.Value)))
  : list byte + list (option (gmap string json.Value)) :=
  match bodies with
  | [] => inr result
  | resp :: rest =>
      match json.Unmarshal resp (Some ∅) with
      | None => inl resp
      | Some ele => appendBodies rest (result ++ [ele])
      end
  end.

(** [formatResponse]. Go leaves the order of [range] over a map open:
    [range data] is the order this run visits the entries of [data] in. *)
Definition formatResponse (aa : APIAggregator)
    (range : gmap string (list byte) → list (string * list byte))
    (data : gmap string (list byte)) (ctx : Context) : string * Context :=
  let bodies := (range data).*2 in
  let encoded :=
    if MergeResponse (spec aa) then
      match mergeBodies bodies (Some ∅) with
      | inl resp => inl resp
      | inr result => inr (json.DocObject result)
      end
    else
      match appendBodies bodies [] with
      | inl resp => inl resp
      | inr result => inr (json.DocArray result)
      end in
  match encoded with
  | inl resp =>
      (resultFailed,
       onResponse (SetStatusCode EGStatusBadResponse)
         (AddTag (TagUnmarshalFailed resp) ctx))
  | inr doc =>
      match json.Marshal doc with
      | None =>
          (resultFailed,
           onResponse (SetStatusCode StatusInternalServerError)
             (AddTag TagMarshalFailed ctx))
      | Some buff => ("", onResponse (SetPayload (Go.NewReader buff)) ctx)
      end
  end.

(** [Handle] up to [wg.Wait()]: the inbound body, the requests, the
    workers. It hands on the slots of [httpResps], each with the pipeline
    of its index. The loop closing the payloads of the filled slots
    changes nothing that is read afterwards. *)
Definition fanOut (aa : APIAggregator) (sched : list nat)
  : Act (list (Pipeline * option Response)) :=
  andThen (readRequestBody aa) (fun buff =>
  andThen (buildRequests aa buff (Pipelines (spec aa))) (fun jobs ctx =>
  (Continue (zip (Pipelines (spec aa)) (dispatch aa sched jobs)), ctx))).

(** [Handle] up to the call of [formatResponse]. *)
Definition gather (aa : APIAggregator) (sched : list nat)
  : Act (gmap string (list byte)) :=
  andThen (fanOut aa sched) (fun slots => collect aa slots ∅).

(** Handle limits HTTPContext. *)
Definition Handle (aa : APIAggregator) (sched : list nat)
    (range : gmap string (list byte) → list (string * list byte))
    (ctx : Context) : string * Context :=
  finish
    (andThen (gather aa sched) (fun data ctx' =>
     let '(res, ctx'') := formatResponse aa range data ctx' in
     (Continue res, ctx'')))
    ctx.

End aggregator.

End apiaggregator.

(* ===================================================================== *)
(** ** [pkg/filters/certextractor] *)
(* ===================================================================== *)

Module certextractor.
Import httpprot context.

(** Kind is the kind of CertExtractor. *)
Definition Kind : string := "CertExtractor".

(** Spec describes the CertExtractor. [CertIndex] is an [int16]. *)
Record Spec : Type := {
  SpecName : string;
  CertIndex : Z;
  Target : string;
  Field : string;
  HeaderKey : string;
}.

(** CertExtractor extracts given field from TLS certificates and sets it
    to request headers. *)
Record CertExtractor : Type := {
  spec : Spec;
  headerKey : string;
}.

Section lifecycle.
Context {Resources : Type}.

(** Init initializes CertExtractor. *)
Definition Init (s : Spec) : filters.Run Resources CertExtractor :=
  filters.bind (filters.record (filters.CallInit Kind (SpecName s))) (fun _ =>
  filters.ret
    {| spec := s;
       headerKey :=
         if bool_decide (HeaderKey s ≠ "") then HeaderKey s
         else "tls-" +:+ Target s +:+ "-" +:+ Field s |}).

(** Inherit inherits previous generation of CertExtractor. *)
Definition Inherit (s : Spec) (previousGeneration : filters.Filter Resources)
  : filters.Run Resources CertExtractor :=
  filters.bind (filters.Close previousGeneration) (fun _ => Init s).

(** Close closes CertExtractor. *)
Definition Close (ce : CertExtractor) : Resources → Resources := fun r => r.

Definition asFilter (ce : CertExtractor) : filters.Filter Resources :=
  {| filters.FilterKind := Kind;
     filters.FilterName := SpecName (spec ce);
     filters.FilterClose := Close ce |}.

End lifecycle.

(** The index computed from [CertIndex] and the number of certificates:
<<
    n := int16(len(certs))
    relativeIndex := ce.spec.CertIndex % n
    index := (n + relativeIndex) % n
>> *)
Definition certIndex (ce : CertExtractor) (len : nat) : Go.exec Z :=
  let n := Go.int16 (Z.of_nat len) in
  Go.exec_bind (Go.rem (CertIndex (spec ce)) n) (fun relativeIndex =>
  Go.rem (Go.int16 (n + relativeIndex)) n).

(** The [switch ce.spec.Field]. *)
Definition fieldValues (field : string) (target : pkixName) : list string :=
  if bool_decide (field = "Country") then Country target
  else if bool_decide (field = "Organization") then Organization target
  else if bool_decide (field = "OrganizationalUnit") then OrganizationalUnit target
  else if bool_decide (field = "Locality") then Locality target
  else if bool_decide (field = "Province") then Province target
  else if bool_decide (field = "StreetAddress") then StreetAddress target
  else if bool_decide (field = "PostalCode") then PostalCode target
  else if bool_decide (field = "SerialNumber") then [SerialNumber target]
  else if bool_decide (field = "CommonName") then [CommonName target]
  else [].

Section handle.
Context `{HeaderNames}.

(** The final loop: every non-empty value is added to the header. *)
Definition addValues (key : string) (result : list string) (r : Request) : Request :=
  foldl (fun r res => if bool_decide (res ≠ "") then AddHeader key res r else r)
        r result.

Definition handle (ce : CertExtractor) (ctx : Context) : Go.exec (string * Context) :=
  let r := CtxRequest ctx in
  match TLS r with
  | None => Go.Done ("", ctx)
  | Some connectionState =>
      let certs := PeerCertificates connectionState in
      if (length certs <? 1)%nat then Go.Done ("", ctx)
      else
        Go.exec_bind (certIndex ce (length certs)) (fun index =>
        Go.exec_bind (Go.index certs index) (fun cert =>
        let target :=
          if bool_decide (Target (spec ce) = "subject") then Subject cert
          else Issuer cert in
        let result := fieldValues (Field (spec ce)) target in
        Go.Done ("", onRequest (addValues (headerKey ce) result) ctx)))
  end.

(** Handle retrieves header values and sets request headers. *)
Definition Handle (ce : CertExtractor) (ctx : Context) : Go.exec (string * Context) :=
  handle ce ctx.

End handle.

End certextractor.

(* ===================================================================== *)
(** ** [pkg/protocols/httpprot/fallback] *)
(* ===================================================================== *)

Module fallback.
Import httpprot.

(** Spec describes the Fallback. *)
Record Spec : Type := {
  MockCode : Z;
  MockHeaders : gmap string string;
  MockBody : string;
}.

(** Fallback is filter Fallback. *)
Record Fallback : Type := {
  spec : Spec;
  mockBody : list byte;
  bodyLength : string;
}.

(** New creates a Fallback. *)
Definition New (s : Spec) : Fallback :=
  let body := String.list_byte_of_string (MockBody s) in
  {| spec := s;
     mockBody := body;
     bodyLength := Go.Itoa (Z.of_nat (length body)) |}.

(** Fallback fallbacks HTTPContext. [range] is the order in which this
    run visits the entries of [MockHeaders]. *)
Definition Fallback_Fallback `{HeaderNames} (f : Fallback)
    (range : gmap string string → list (string * string))
    (w : Response) : Response :=
  let w1 := SetStatusCode (MockCode (spec f)) w in
  let w2 := SetHeader KeyContentLength (bodyLength f) w1 in
  let w3 := foldl (fun w kv => SetHeader kv.1 kv.2 w) w2 (range (MockHeaders (spec f))) in
  SetPayload (Go.NewReader (mockBody f)) w3.

End fallback.

(* ===================================================================== *)
(** ** A concrete setting for worked examples *)
(* ===================================================================== *)

Module sample.
Import httpprot context.

(** A header store that keeps names as given. *)
#[export] Instance verbatimNames : HeaderNames := fun key => key.

(** A reader of flat JSON objects with string keys and unsigned integer
    members, written without blanks, and of [null]; enough for the
    bodies of the examples. *)
Definition digit (b : byte) : option Z :=
  match b with
  | x30 => Some 0 | x31 => Some 1 | x32 => Some 2 | x33 => Some 3
  | x34 => Some 4 | x35 => Some 5 | x36 => Some 6 | x37 => Some 7
  | x38 => Some 8 | x39 => Some 9
  | _ => None
  end.

Fixpoint readDigits (acc : Z) (bs : list byte) : Z * list byte :=
  match bs with
  | b :: rest =>
      match digit b with
      | Some d => readDigits (10 * acc + d) rest
      | None => (acc, bs)
      end
  | [] => (acc, [])
  end.

Fixpoint readKey (acc : list byte) (bs : list byte) : option (string * list byte) :=
  match bs with
  | x22 :: rest => Some (String.string_of_list_byte acc, rest)
  | b :: rest => readKey (acc ++ [b]) rest
  | [] => None
  end.

Fixpoint readMembers (fuel : nat) (o : gmap string json.Value) (bs : list byte)
  : option (gmap string json.Value) :=
  match fuel with
  | O => None
  | S fuel =>
      match bs with
      | x22 :: rest =>
          match readKey [] rest with
          | Some (k, x3a :: b :: rest') =>
              match digit b with
              | Some _ =>
                  let '(n, rest'') := readDigits 0 (b :: rest') in
                  match rest'' with
                  | [x7d] => Some (<[k := json.Number n]> o)
                  | x2c :: more => readMembers fuel (<[k := json.Number n]> o) more
                  | _ => None
                  end
              | None => None
              end
          | _ => None
          end
      | _ => None
      end
  end.

Definition decodeFlat (bs : list byte) : json.decoded :=
  match bs with
  | [x6e; x75; x6c; x6c] => json.DecNull
  | [x7b; x7d] => json.DecObject ∅
  | x7b :: rest =>
      match readMembers (length rest) ∅ rest with
      | Some o => json.DecObject o
      | None => json.DecError
      end
  | _ => json.DecError
  end.

(** A printer of JSON text; the members of a map come in the order in
    which the map enumerates them. *)
Definition text (s : string) : list byte := String.list_byte_of_string s.

Fixpoint printValue (v : json.Value) : list byte :=
  match v with
  | json.Null => text "null"
  | json.Bool true => text "true"
  | json.Bool false => text "false"
  | json.Number n => text (pretty n)
  | json.Str s => [x22] ++ text s ++ [x22]
  | json.Array elems =>
      [x5b] ++
      (fix items (l : list json.Value) : list byte :=
         match l with
         | [] => []
         | [v] => printValue v
         | v :: rest => printValue v ++ [x2c] ++ items rest
         end) elems ++ [x5d]
  | json.Object members =>
      [x7b] ++
      (fix items (l : list (string * json.Value)) : list byte :=
         match l with
         | [] => []
         | [(k, v)] => [x22] ++ text k ++ [x22; x3a] ++ printValue v
         | (k, v) :: rest =>
             [x22] ++ text k ++ [x22; x3a] ++ printValue v ++ [x2c] ++ items rest
         end) members ++ [x7d]
  end.

Definition printMap (m : option (gmap string json.Value)) : list byte :=
  match m with
  | None => text "null"
  | Some o => printValue (json.Object (map_to_list o))
  end.

Fixpoint printMaps (l : list (option (gmap string json.Value))) : list byte :=
  match l with
  | [] => []
  | [m] => printMap m
  | m :: rest => printMap m ++ [x2c] ++ printMaps rest
  end.

Definition printDocument (d : json.Document) : option (list byte) :=
  match d with
  | json.DocObject m => Some (printMap m)
  | json.DocArray elems => Some ([x5b] ++ printMaps elems ++ [x5d])
  end.

#[export] Instance flatCodec : json.Codec :=
  {| json.decode := decodeFlat; json.Marshal := printDocument |}.

(** Collaborators of the aggregator: paths are rewritten to a fixed
    path, every method and URL is accepted, no duration parses. The
    status code stands for [EGStatusBadResponse]; no example depends on
    its value. *)
#[export] Instance collaborators : apiaggregator.Collaborators :=
  {| apiaggregator.EGStatusBadResponse := 599;
     apiaggregator.rctcKind := "RawConfigTrafficController";
     apiaggregator.ParseDuration := fun _ => None;
     apiaggregator.PathSpec := string;
     apiaggregator.PathAdapt := fun to _ => to;
     apiaggregator.validRequest := fun _ _ => true |}.

(** Bodies: [{"x":1}], [{"x":2}], [{"y":2}] and [{}]; and the texts
    [{"y":2,"x":1}], [[{"x":1},{"x":2}]] and [[{"x":2},{"x":1}]]. *)
Definition body_x1 : list byte := [x7b; x22; x78; x22; x3a; x31; x7d].
Definition body_x2 : list byte := [x7b; x22; x78; x22; x3a; x32; x7d].
Definition body_y2 : list byte := [x7b; x22; x79; x22; x3a; x32; x7d].
Definition body_empty : list byte := [x7b; x7d].
Definition body_y2_x1 : list byte :=
  [x7b; x22; x79; x22; x3a; x32; x2c; x22; x78; x22; x3a; x31; x7d].
Definition array_x1_x2 : list byte := [x5b] ++ body_x1 ++ [x2c] ++ body_x2 ++ [x5d].
Definition array_x2_x1 : list byte := [x5b] ++ body_x2 ++ [x2c] ++ body_x1 ++ [x5d].

Definition respond (code : Z) (body : list byte) : Response :=
  {| StatusCode := code; RespHeader := ∅; RespPayload := Some (Go.NewReader body) |}.

(** The installed pipelines: [a] answers 200 with [bodyA], [b] answers
    200 with [bodyB], [m] answers 200 with [bodyA] to a GET and with
    [bodyB] to any other method, [down] answers 502, [cut] answers 200
    with a body whose read breaks off. *)
Definition controller (bodyA bodyB : list byte)
  : apiaggregator.RawConfigTrafficController :=
  {| apiaggregator.GetHTTPPipeline := fun name =>
       if bool_decide (name = "a") then Some (fun _ => Some (respond 200 bodyA))
       else if bool_decide (name = "b") then Some (fun _ => Some (respond 200 bodyB))
       else if bool_decide (name = "m") then
         Some (fun req =>
                 Some (respond 200
                         (if bool_decide (apiaggregator.StdMethod req = "GET")
                          then bodyA else bodyB)))
       else if bool_decide (name = "down") then Some (fun _ => Some (respond 502 bodyA))
       else if bool_decide (name = "cut") then
         Some (fun _ =>
                 Some {| StatusCode := 200; RespHeader := ∅;
                         RespPayload :=
                           Some {| Go.pending := [];
                                   Go.ending := Go.ErrOther "connection reset" |} |})
       else None |}.

Definition targetVia (name method : string) : apiaggregator.Pipeline :=
  {| apiaggregator.Name := name; apiaggregator.Method := method;
     apiaggregator.Path := None; apiaggregator.DisableBody := false;
     apiaggregator.pa := None |}.

Definition target (name : string) : apiaggregator.Pipeline := targetVia name "".

Definition aggregator (max : Z) (partial merge : bool)
    (targets : list apiaggregator.Pipeline)
    (bodyA bodyB : list byte) : apiaggregator.APIAggregator :=
  {| apiaggregator.spec :=
       {| apiaggregator.SpecName := "agg";
          apiaggregator.Super := {| apiaggregator.GetSystemController := fun _ => None |};
          apiaggregator.MaxBodyBytes := max;
          apiaggregator.PartialSucceed := partial;
          apiaggregator.Timeout := "";
          apiaggregator.MergeResponse := merge;
          apiaggregator.Pipelines := targets;
          apiaggregator.timeout := None |};
     apiaggregator.rctc := controller bodyA bodyB |}.

(** An inbound GET with the given body, and an untouched response. *)
Definition inboundWith (body : list byte) : Context :=
  {| CtxRequest := {| Method := "GET"; URLPath := "/"; ReqHeader := ∅;
                      ReqPayload := Go.NewReader body; TLS := None |};
     CtxResponse := {| StatusCode := 200; RespHeader := ∅; RespPayload := None |};
     Tags := [] |}.

Definition inbound : Context := inboundWith [].

(** Two ways to range over a map: in key order, and in the reverse. *)
Definition ascending {A} (m : gmap string A) : list (string * A) := map_to_list m.
Definition descending {A} (m : gmap string A) : list (string * A) :=
  reverse (map_to_list m).

(** Three peer certificates, told apart by the common name of their
    subject; the second has none. *)
Definition named (cn : string) : pkixName :=
  {| Country := []; Organization := []; OrganizationalUnit := [];
     Locality := []; Province := []; StreetAddress := []; PostalCode := [];
     SerialNumber := ""; CommonName := cn |}.

Definition certificate (cn : string) : Certificate :=
  {| Subject := named cn; Issuer := named "issuer" |}.

Definition threeCertificates : ConnectionState :=
  {| PeerCertificates := [certificate "first"; certificate ""; certificate "third"] |}.

Definition overTLS : Context :=
  {| CtxRequest := {| Method := "GET"; URLPath := "/"; ReqHeader := ∅;
                      ReqPayload := Go.NewReader []; TLS := Some threeCertificates |};
     CtxResponse := {| StatusCode := 200; RespHeader := ∅; RespPayload := None |};
     Tags := [] |}.

(** The request the workers of the examples pass on. *)
Definition plainRequest : apiaggregator.StdRequest :=
  {| apiaggregator.StdMethod := "GET"; apiaggregator.StdURL := "/";
     apiaggregator.StdBody := Some []; apiaggregator.StdTimeout := None |}.

(** An extractor of the subject's common name into the header [X-CN]. *)
Definition extractor (index : Z) : certextractor.CertExtractor :=
  {| certextractor.spec :=
       {| certextractor.SpecName := "cn"; certextractor.CertIndex := index;
          certextractor.Target := "subject"; certextractor.Field := "CommonName";
          certextractor.HeaderKey := "X-CN" |};
     certextractor.headerKey := "X-CN" |}.

(** A mock whose headers name the content length themselves. *)
Definition mockWithLength : fallback.Spec :=
  {| fallback.MockCode := 503;
     fallback.MockHeaders := {[ "Content-Length" := "999" ]};
     fallback.MockBody := "ab" |}.

Definition mockPlain : fallback.Spec :=
  {| fallback.MockCode := 503;
     fallback.MockHeaders := {[ "X-Mock" := "yes"; "Retry-After" := "1" ]};
     fallback.MockBody := "ab" |}.

Definition blank : Response :=
  {| StatusCode := 200; RespHeader := ∅; RespPayload := None |}.

End sample.

(* ===================================================================== *)
(** ** Vocabulary for the properties of the aggregator *)
(* ===================================================================== *)

Module aggregation.
Import httpprot context apiaggregator.

(** The context a failed read of a sub-target's body leaves. *)
Definition responseReadFailed (err : option Go.error) (ctx : Context) : Context :=
  onResponse (SetStatusCode StatusInternalServerError)
    (AddTag (TagReadResponseBodyFailed err) ctx).

(** The context the first empty slot leaves when partial success is off. *)
Definition unavailable `{HeaderNames} (name : string) (ctx : Context) : Context :=
  onResponse (SetStatusCode StatusServiceUnavailable)
    (onResponse (SetHeader "X-EG-Aggregator" ("failed-in-" +:+ name)) ctx).

Section vocabulary.
Context `{HeaderNames} `{json.Codec} `{Collaborators}.

(** A body that [copyHTTPBody2Map] stores: shorter than [MaxBodyBytes]
    and cleanly ended. *)
Definition readable (aa : APIAggregator) (body : Go.Reader) : Prop :=
  Z.of_nat (length (Go.pending body)) < MaxBodyBytes (spec aa)
  ∧ Go.ending body = Go.EOF.

Definition slotReadable (aa : APIAggregator) (slot : Pipeline * option Response)
  : Prop :=
  match slot.2 with
  | Some r =>
      match RespPayload r with
      | Some body => readable aa body
      | None => True
      end
  | None => True
  end.

Definition slotFilled (slot : Pipeline * option Response) : Prop :=
  is_Some slot.2.

(** The bodies of the filled slots, each under the name of its
    sub-target, in the order of the sub-target list; empty slots and
    payloads without a reader have no entry. *)
Definition successBodies (slots : list (Pipeline * option Response))
  : list (string * list byte) :=
  omap (fun slot : Pipeline * option Response =>
          match slot.2 with
          | Some r =>
              match RespPayload r with
              | Some body => Some (Name slot.1, Go.pending body)
              | None => None
              end
          | None => None
          end) slots.

(** Entries stored one after the other into a map keyed by name. *)
Definition storeAll (entries : list (string * list byte))
    (data : gmap string (list byte)) : gmap string (list byte) :=
  foldl (fun d entry => <[entry.1 := entry.2]> d) data entries.

Definition isObject (body : list byte) : Prop :=
  match json.decode body with
  | json.DecObject _ => True
  | _ => False
  end.

Definition objectOf (body : list byte) : gmap string json.Value :=
  match json.decode body with
  | json.DecObject o => o
  | _ => ∅
  end.

(** The shallow merge of objects from left to right: a key of a later
    object overwrites the same key of an earlier one. *)
Definition shallowMerge (objs : list (gmap string json.Value))
  : gmap string json.Value :=
  foldl (fun acc o => o ∪ acc) ∅ objs.

(** The document made of a list of bodies taken in the order given: their
    shallow merge, or the array of their objects. *)
Definition aggregate (merge : bool) (entries : list (string * list byte))
  : json.Document :=
  if merge
  then json.DocObject (Some (shallowMerge (objectOf <$> entries.*2)))
  else json.DocArray ((fun body => Some (objectOf body)) <$> entries.*2).

(** No key occurs in two of the objects. *)
Definition keysApart (objs : list (gmap string json.Value)) : Prop :=
  ∀ (i j : nat) o1 o2, i ≠ j → objs !! i = Some o1 → objs !! j = Some o2 → o1 ##ₘ o2.

End vocabulary.

End aggregation.


(* ===================================================================== *)
(** ** Vocabulary for the properties of the certificate extractor *)
(* ===================================================================== *)

Module extraction.
Import httpprot context certextractor.

(** The certificate at the signed index modulo the number of
    certificates, counting from 0; none when there is no certificate. *)
Definition selected (ce : CertExtractor) (certs : list Certificate)
  : option Certificate :=
  certs !! Z.to_nat (CertIndex (spec ce) `mod` Z.of_nat (length certs)).

(** The values of the configured field of the configured name of the
    selected certificate. *)
Definition selectedValues (ce : CertExtractor) (ctx : Context) : list string :=
  match TLS (CtxRequest ctx) with
  | Some cs =>
      match selected ce (PeerCertificates cs) with
      | Some cert =>
          fieldValues (Field (spec ce))
            (if bool_decide (Target (spec ce) = "subject")
             then Subject cert else Issuer cert)
      | None => []
      end
  | None => []
  end.

End extraction.

(* ===================================================================== *)
(** ** Vocabulary for the derived requests *)
(* ===================================================================== *)

Module derivation.
Import httpprot context apiaggregator.

Section vocabulary.
Context `{HeaderNames} `{json.Codec} `{Collaborators}.

(** A path after the adaptor of a sub-target, if it has one. *)
Definition adaptPath (path : string) (p : Pipeline) : string :=
  match pa p with
  | Some adapt => adapt path
  | None => path
  end.

(** A path after the adaptors of a list of sub-targets, first to last. *)
Definition pathAfter (ps : list Pipeline) (path : string) : string :=
  foldl adaptPath path ps.

Definition methodFor (inbound : Request) (p : Pipeline) : string :=
  if bool_decide (Method p ≠ "") then Method p else httpprot.Method inbound.

(** The request for sub-target [i] of [ps], for an inbound request and
    its buffered body. *)
Definition derived (aa : APIAggregator) (inbound : Request) (buff : list byte)
    (ps : list Pipeline) (i : nat) (p : Pipeline) : StdRequest :=
  {| StdMethod := methodFor inbound p;
     StdURL := pathAfter (take (S i) ps) (URLPath inbound);
     StdBody := if DisableBody p then None else Some buff;
     StdTimeout := timeout (spec aa) |}.

(** [http.NewRequestWithContext] accepts the request for sub-target [i]. *)
Definition accepted (inbound : Request) (ps : list Pipeline) (i : nat)
    (p : Pipeline) : Prop :=
  validRequest (methodFor inbound p)
    (pathAfter (take (S i) ps) (URLPath inbound)) = true.

(** The status codes [Handle] gives a failed call. *)
Definition failureCodes : list Z :=
  [StatusRequestEntityTooLarge; StatusBadRequest; StatusServiceUnavailable;
   StatusInsufficientStorage; StatusInternalServerError; EGStatusBadResponse].

(** Two requests that differ in their URL path at most. *)
Definition sameButPath (r r' : Request) : Prop :=
  httpprot.Method r' = httpprot.Method r
  ∧ ReqHeader r' = ReqHeader r
  ∧ ReqPayload r' = ReqPayload r
  ∧ TLS r' = TLS r.

(** A response after a successful call: a new payload, read from a
    buffer; status code and header as before. *)
Definition succeeded (w w' : Response) : Prop :=
  StatusCode w' = StatusCode w
  ∧ RespHeader w' = RespHeader w
  ∧ ∃ buff, RespPayload w' = Some (Go.NewReader buff).

(** A response after a failed call: the payload as before, one of the
    failure codes, and the header as before unless the code is 503 and
    the header names one of the sub-targets. *)
Definition failed (ps : list Pipeline) (w w' : Response) : Prop :=
  RespPayload w' = RespPayload w
  ∧ StatusCode w' ∈ failureCodes
  ∧ (RespHeader w' = RespHeader w
     ∨ StatusCode w' = StatusServiceUnavailable
       ∧ ∃ p, p ∈ ps
              ∧ RespHeader w' =
                  HeaderSet (RespHeader w) "X-EG-Aggregator"
                    ("failed-in-" +:+ Name p)).

End vocabulary.

End derivation.

(* ===================================================================== *)
(** ** Kind descriptors ([filters.Kind]) *)
(* ===================================================================== *)

Module descriptors.

(** The descriptor of a kind, as far as it is data. *)
Record Kind : Type := {
  Name : string;
  Description : string;
  Results : list string;
}.

(** [apiaggregator.kind]. *)
Definition apiaggregatorKind : Kind :=
  {| Name := apiaggregator.Kind;
     Description := "APIAggregator aggregates apis.";
     Results := [apiaggregator.resultFailed] |}.

(** [certextractor.kind]. *)
Definition certextractorKind : Kind :=
  {| Name := certextractor.Kind;
     Description :=
       "CertExtractor extracts given field from TLS certificates and sets it to request headers.";
     Results := [] |}.

End descriptors.

(* ===================================================================== *)
(** ** Vocabulary for the properties of the fallback *)
(* ===================================================================== *)

Module mocking.
Import httpprot.

(** What a run of [Set] calls, one per entry and in the order given,
    leaves under the header name [c], when [init] was there before: the
    value of the last entry whose name denotes [c], alone. *)
Definition finalValue `{HeaderNames} (c : string)
    (entries : list (string * string)) (init : option (list string))
  : option (list string) :=
  foldl (fun acc kv => if bool_decide (canonicalKey kv.1 = c) then Some [kv.2] else acc)
        init entries.

End mocking.

(* ===================================================================== *)
(** ** The [service] commands of the command line client *)
(* ===================================================================== *)

Module command.

(** What the file takes from the rest of its package: the URL templates,
    [makeURL] and [readFromFileOrStdin] (the content and the name read
    for a spec file). *)
Class Package : Type := {
  MeshServiceURL : string;
  MeshServicesURL : string;
  makeURL : string → list string → string;
  readFromFileOrStdin : string → list byte * string;
}.

(** [net/http] method names. *)
Definition MethodPost : string := "POST".
Definition MethodPut : string := "PUT".
Definition MethodDelete : string := "DELETE".
Definition MethodGet : string := "GET".

(** The call [handleRequest(method, url, body, cmd)] a command ends in;
    a [nil] body is [None]. *)
Record Call : Type := {
  callMethod : string;
  callURL : string;
  callBody : option (list byte);
}.

(** A [cobra.Command], as far as these commands fill it in. [Run] gets
    the value of the [file] flag and the arguments. *)
Record Command : Type := {
  Use : string;
  Short : string;
  Example : string;
  Args : option (list string → option string);
  Run : string → list string → Go.exec Call;
}.

Section commands.
Context `{Package}.

Definition createServiceCmd : Command :=
  {| Use := "create";
     Short := "Create an service from a yaml file or stdin";
     Example := "";
     Args := None;
     Run := fun specFile args =>
       let '(buff, name) := readFromFileOrStdin specFile in
       Go.Done {| callMethod := MethodPost;
                  callURL := makeURL MeshServiceURL [name];
                  callBody := Some buff |} |}.

Definition updateServiceCmd : Command :=
  {| Use := "update";
     Short := "Update an service from a yaml file or stdin";
     Example := "";
     Args := None;
     Run := fun specFile args =>
       let '(buff, name) := readFromFileOrStdin specFile in
       Go.Done {| callMethod := MethodPut;
                  callURL := makeURL MeshServiceURL [name];
                  callBody := Some buff |} |}.

Definition deleteServiceCmd : Command :=
  {| Use := "delete";
     Short := "Delete an service";
     Example := "egctl mesh service delete <service_name>";
     Args := Some (fun args =>
       if negb (Nat.eqb (length args) 1)
       then Some "requires one service name to be deleted"
       else None);
     Run := fun specFile args =>
       Go.exec_bind (Go.index args 0) (fun name =>
       Go.Done {| callMethod := MethodDelete;
                  callURL := makeURL MeshServiceURL [name];
                  callBody := None |}) |}.

Definition getServiceCmd : Command :=
  {| Use := "get";
     Short := "Get an service";
     Example := "egctl mesh service get <service_name>";
     Args := Some (fun args =>
       if negb (Nat.eqb (length args) 1)
       then Some "requires one service name to be retrieved"
       else None);
     Run := fun specFile args =>
       Go.exec_bind (Go.index args 0) (fun name =>
       Go.Done {| callMethod := MethodGet;
                  callURL := makeURL MeshServiceURL [name];
                  callBody := None |}) |}.

Definition listServicesCmd : Command :=
  {| Use := "list";
     Short := "List all services";
     Example := "egctl mesh service list";
     Args := None;
     Run := fun specFile args =>
       Go.Done {| callMethod := MethodGet;
                  callURL := makeURL MeshServicesURL [];
                  callBody := None |} |}.

(** How cobra runs a command on its arguments: [Args], when set, is
    asked first and its error ends the run; [Run] follows. *)
Definition execute (c : Command) (specFile : string) (args : list string)
  : string + Go.exec Call :=
  match Args c with
  | Some validate =>
      match validate args with
      | Some err => inl err
      | None => inr (Run c specFile args)
      end
  | None => inr (Run c specFile args)
  end.

End commands.

End command.

(* ===================================================================== *)
(** ** More concrete data for worked examples *)
(* ===================================================================== *)

Module sample_more.
Import httpprot context sample.

(** A sub-target whose adaptor appends a suffix to the path. *)
Definition suffixed (name suffix : string) : apiaggregator.Pipeline :=
  {| apiaggregator.Name := name; apiaggregator.Method := "";
     apiaggregator.Path := None; apiaggregator.DisableBody := false;
     apiaggregator.pa := Some (fun path => path +:+ suffix) |}.

(** A sub-target that sends no body, with a method of its own. *)
Definition bodiless (name method : string) : apiaggregator.Pipeline :=
  {| apiaggregator.Name := name; apiaggregator.Method := method;
     apiaggregator.Path := None; apiaggregator.DisableBody := true;
     apiaggregator.pa := None |}.

(** Collaborators that turn down a method with a blank in it, as
    [http.NewRequestWithContext] does. *)
Definition strict : apiaggregator.Collaborators :=
  {| apiaggregator.EGStatusBadResponse := 599;
     apiaggregator.rctcKind := "RawConfigTrafficController";
     apiaggregator.ParseDuration := fun _ => None;
     apiaggregator.PathSpec := string;
     apiaggregator.PathAdapt := fun to _ => to;
     apiaggregator.validRequest := fun method _ => negb (String.eqb method "G T") |}.

Definition strictTarget (name method : string)
  : @apiaggregator.Pipeline strict :=
  @apiaggregator.Build_Pipeline strict name method None false None.

Definition strictAggregator (targets : list (@apiaggregator.Pipeline strict))
  : @apiaggregator.APIAggregator strict :=
  @apiaggregator.Build_APIAggregator strict
    (@apiaggregator.Build_Spec strict "agg"
       {| apiaggregator.GetSystemController := fun _ => None |}
       100 false "" true targets None)
    (controller body_x1 body_x2).

(** A body that is no JSON: [oops]. *)
Definition body_oops : list byte := [x6f; x6f; x70; x73].

(** A connection with 20000 peer certificates. *)
Definition overManyCertificates : Context :=
  onRequest (fun r => {| Method := Method r; URLPath := URLPath r;
                         ReqHeader := ReqHeader r; ReqPayload := ReqPayload r;
                         TLS := Some {| PeerCertificates :=
                                          replicate (Z.to_nat 20000) (certificate "cn") |} |})
    overTLS.

(** A response that has headers already. *)
Definition answered : Response :=
  {| StatusCode := 200;
     RespHeader := {[ "X-Mock" := ["old"; "older"]; "Server" := ["eg"] ]};
     RespPayload := Some (Go.NewReader body_x1) |}.

(** A client package for the commands. *)
Definition client : command.Package :=
  {| command.MeshServiceURL := "/apis/v1/mesh/services/%s";
     command.MeshServicesURL := "/apis/v1/mesh/services";
     command.makeURL := fun template args =>
       foldl (fun url arg => url +:+ "|" +:+ arg) template args;
     command.readFromFileOrStdin := fun _ => ([], "svc") |}.

End sample_more.

(* ===================================================================== *)
(** ** The goroutines of [Handle] *)
(* ===================================================================== *)

(** [Handle] between [wg.Add] and the statement after [wg.Wait()], with
    its goroutines written out. [buildRequests] and [dispatch] give the
    result of this part of [Handle]; here are its steps: the loop starts
    the goroutine of a sub-target as soon as the request of that
    sub-target is built, so a goroutine can run to its end while the loop
    is still at work, and the [return] inside the loop leaves [Handle]
    with the goroutines started so far. *)
Module goroutines.
Import httpprot context apiaggregator.

(** Where the goroutine that runs [Handle] stands: at the head of the
    loop body for the sub-target of index [i], in [wg.Wait()], past
    [wg.Wait()], or returned from inside the loop. *)
Inductive Main : Type :=
| Launching (i : nat)
| Waiting
| Passed
| Returned.


Section run.
Context `{HeaderNames} `{json.Codec} `{Collaborators}.

(** The state shared by [Handle] and its goroutines: the context, the
    counter of [wg], the arguments [(name, req)] of the goroutines
    started so far (goroutine [i] is the one of the sub-target of index
    [i]), the goroutines that have run to their end, in the order in
    which they did, and the slots [httpResps]. *)
Record Run : Type := {
  main : Main;
  hctx : Context;
  wg : Z;
  started : list (string * StdRequest);
  finished : list nat;
  httpResps : list (option Response);
}.








End run.

End goroutines.

(* ===================================================================== *)
(** * Properties *)
(* ===================================================================== *)

(** ** [io.CopyN] *)

Section copyN.
Import Go.

Lemma CopyN_short (src : Reader) (n : Z) :
  Z.of_nat (length (pending src)) < n →
  CopyN src n =
    (pending src, Z.of_nat (length (pending src)),
     Some (ending src)).
Proof.
  intros Hlt. unfold CopyN, CopyLimited.
  destruct (Z.leb_spec n 0); [lia|].
  destruct (Z.leb_spec n (Z.of_nat (length (pending src)))); [lia|].
  destruct (Z.eqb_spec (Z.of_nat (length (pending src))) n); [lia|].
  destruct (Z.ltb_spec (Z.of_nat (length (pending src))) n); [|lia].
  by destruct (ending src).
Qed.

Lemma CopyN_full (src : Reader) (n : Z) :
  0 <= n <= Z.of_nat (length (pending src)) →
  CopyN src n = (take (Z.to_nat n) (pending src), n, None).
Proof.
  intros [Hn Hle]. unfold CopyN, CopyLimited.
  destruct (Z.leb_spec n 0).
  - assert (n = 0) as -> by lia. done.
  - destruct (Z.leb_spec n (Z.of_nat (length (pending src)))); [|lia].
    by rewrite Z.eqb_refl.
Qed.

Lemma CopyN_negative (src : Reader) (n : Z) :
  n < 0 → CopyN src n = ([], 0, None).
Proof.
  intros Hn. unfold CopyN, CopyLimited.
  destruct (Z.leb_spec n 0); [|lia].
  destruct (Z.eqb_spec 0 n); [lia|].
  destruct (Z.ltb_spec 0 n); [lia|]. done.
Qed.

Lemma int64_small (z : Z) : in_int64 z → int64 z = z.
Proof.
  unfold in_int64, int64, wrap. intros Hz.
  rewrite Z.mod_small; lia.
Qed.

End copyN.

(** ** The aggregator's two body limits *)

Section limits.
Import httpprot context apiaggregator aggregation.
Context `{HeaderNames} `{json.Codec} `{Collaborators}.

(** A sub-target's body that holds [MaxBodyBytes] bytes or more is never
    stored: [io.CopyN] is asked for [MaxBodyBytes] bytes, gets them all
    and reports no [io.EOF]. *)
Lemma copyHTTPBody2Map_full aa body ctx data name :
  0 <= MaxBodyBytes (spec aa) <= Z.of_nat (length (Go.pending body)) →
  copyHTTPBody2Map aa body ctx data name =
    (resultFailed, responseReadFailed None ctx, data).
Proof.
  intros Hmax. unfold copyHTTPBody2Map.
  rewrite CopyN_full by done.
  by rewrite Z.ltb_irrefl.
Qed.

(** A sub-target's body shorter than [MaxBodyBytes] that ends cleanly is
    stored whole under the sub-target's name. *)
Lemma copyHTTPBody2Map_short aa body ctx data name :
  Z.of_nat (length (Go.pending body)) < MaxBodyBytes (spec aa) →
  Go.ending body = Go.EOF →
  copyHTTPBody2Map aa body ctx data name =
    ("", ctx, <[name := Go.pending body]> data).
Proof.
  intros Hlt Heof. unfold copyHTTPBody2Map.
  rewrite CopyN_short by done.
  destruct (Z.ltb_spec (MaxBodyBytes (spec aa)) (Z.of_nat (length (Go.pending body))));
    [lia|].
  by rewrite Heof.
Qed.

(** The too-large status of a sub-target's body is out of reach for a
    limit that is not negative. *)
Lemma copyHTTPBody2Map_never_507 aa body ctx data name :
  0 <= MaxBodyBytes (spec aa) →
  StatusCode (CtxResponse ctx) ≠ StatusInsufficientStorage →
  StatusCode (CtxResponse (copyHTTPBody2Map aa body ctx data name).1.2)
    ≠ StatusInsufficientStorage.
Proof.
  intros Hmax Hctx.
  destruct (Z.lt_ge_cases (Z.of_nat (length (Go.pending body))) (MaxBodyBytes (spec aa))).
  - unfold copyHTTPBody2Map. rewrite CopyN_short by done.
    destruct (Z.ltb_spec (MaxBodyBytes (spec aa))
                (Z.of_nat (length (Go.pending body)))); [lia|].
    by case_bool_decide.
  - by rewrite copyHTTPBody2Map_full.
Qed.

(** The inbound body: up to [MaxBodyBytes] bytes with a clean end pass. *)
Lemma readRequestBody_within aa ctx :
  0 < MaxBodyBytes (spec aa) →
  Go.in_int64 (MaxBodyBytes (spec aa) + 1) →
  Z.of_nat (length (Go.pending (ReqPayload (CtxRequest ctx)))) <= MaxBodyBytes (spec aa) →
  Go.ending (ReqPayload (CtxRequest ctx)) = Go.EOF →
  readRequestBody aa ctx =
    (Continue (Go.pending (ReqPayload (CtxRequest ctx))), ctx).
Proof.
  intros Hpos Hfit Hlen Heof. unfold readRequestBody.
  destruct (Z.ltb_spec 0 (MaxBodyBytes (spec aa))); [|lia].
  rewrite int64_small by done.
  rewrite CopyN_short by lia.
  destruct (Z.ltb_spec (MaxBodyBytes (spec aa))
              (Z.of_nat (length (Go.pending (ReqPayload (CtxRequest ctx))))));
    [lia|].
  by rewrite Heof.
Qed.

(** The inbound body: more than [MaxBodyBytes] bytes are refused with
    413. *)
Lemma readRequestBody_over aa ctx :
  0 < MaxBodyBytes (spec aa) →
  Go.in_int64 (MaxBodyBytes (spec aa) + 1) →
  MaxBodyBytes (spec aa) < Z.of_nat (length (Go.pending (ReqPayload (CtxRequest ctx)))) →
  readRequestBody aa ctx =
    (Return resultFailed,
     onResponse (SetStatusCode StatusRequestEntityTooLarge)
       (AddTag (TagRequestBodyExceed (MaxBodyBytes (spec aa))) ctx)).
Proof.
  intros Hpos Hfit Hlen. unfold readRequestBody.
  destruct (Z.ltb_spec 0 (MaxBodyBytes (spec aa))); [|lia].
  rewrite int64_small by done.
  rewrite CopyN_full by lia.
  destruct (Z.ltb_spec (MaxBodyBytes (spec aa)) (MaxBodyBytes (spec aa) + 1)); [|lia].
  done.
Qed.

(** The inbound body: a read that breaks off with an error other than
    [io.EOF] is refused with 400. *)
Lemma readRequestBody_broken aa ctx msg :
  0 < MaxBodyBytes (spec aa) →
  Go.in_int64 (MaxBodyBytes (spec aa) + 1) →
  Z.of_nat (length (Go.pending (ReqPayload (CtxRequest ctx)))) <= MaxBodyBytes (spec aa) →
  Go.ending (ReqPayload (CtxRequest ctx)) = Go.ErrOther msg →
  readRequestBody aa ctx =
    (Return resultFailed,
     onResponse (SetStatusCode StatusBadRequest)
       (AddTag (TagReadRequestBodyFailed (Some (Go.ErrOther msg))) ctx)).
Proof.
  intros Hpos Hfit Hlen Herr. unfold readRequestBody.
  destruct (Z.ltb_spec 0 (MaxBodyBytes (spec aa))); [|lia].
  rewrite int64_small by done.
  rewrite CopyN_short by lia.
  destruct (Z.ltb_spec (MaxBodyBytes (spec aa))
              (Z.of_nat (length (Go.pending (ReqPayload (CtxRequest ctx))))));
    [lia|].
  by rewrite Herr.
Qed.

(** A sub-target's body whose read breaks off with an error other than
    [io.EOF] before the limit is refused with 500. *)
Lemma copyHTTPBody2Map_broken aa body ctx data name msg :
  Z.of_nat (length (Go.pending body)) < MaxBodyBytes (spec aa) →
  Go.ending body = Go.ErrOther msg →
  copyHTTPBody2Map aa body ctx data name =
    (resultFailed, responseReadFailed (Some (Go.ErrOther msg)) ctx, data).
Proof.
  intros Hlt Herr. unfold copyHTTPBody2Map.
  rewrite CopyN_short by done.
  destruct (Z.ltb_spec (MaxBodyBytes (spec aa)) (Z.of_nat (length (Go.pending body))));
    [lia|].
  by rewrite Herr.
Qed.

(** C2, as the code has it. For a limit [MaxBodyBytes > 0] and a body of
    [MaxBodyBytes] or [MaxBodyBytes + 1] bytes that ends cleanly: as the
    inbound body it passes when it has exactly [MaxBodyBytes] bytes and is
    refused with 413 when it has one more; as a sub-target's response body
    it is refused in both cases, with status 500 and not 507, and nothing
    is stored. *)
Theorem response_limit_differs_from_request_limit aa ctx data name :
  let body := ReqPayload (CtxRequest ctx) in
  let max := MaxBodyBytes (spec aa) in
  0 < max →
  Go.in_int64 (max + 1) →
  max <= Z.of_nat (length (Go.pending body)) <= max + 1 →
  Go.ending body = Go.EOF →
  readRequestBody aa ctx =
    (if Z.of_nat (length (Go.pending body)) =? max
     then (Continue (Go.pending body), ctx)
     else (Return resultFailed,
           onResponse (SetStatusCode StatusRequestEntityTooLarge)
             (AddTag (TagRequestBodyExceed max) ctx)))
  ∧ copyHTTPBody2Map aa body ctx data name =
      (resultFailed,
       onResponse (SetStatusCode StatusInternalServerError)
         (AddTag (TagReadResponseBodyFailed None) ctx),
       data).
Proof.
  intros body max Hpos Hfit Hlen Heof. split.
  - destruct (Z.eqb_spec (Z.of_nat (length (Go.pending body))) max).
    + apply readRequestBody_within; subst body max; lia || done.
    + apply readRequestBody_over; subst body max; lia || done.
  - apply copyHTTPBody2Map_full. subst body max. lia.
Qed.

End limits.

(** ** The workers and their slots *)

Section workers.
Import httpprot context apiaggregator aggregation.
Context `{HeaderNames} `{json.Codec} `{Collaborators}.

Lemma complete_length aa jobs httpResps i :
  length (complete aa jobs httpResps i) = length httpResps.
Proof. unfold complete. destruct (jobs !! i); by rewrite ?length_insert. Qed.

Lemma complete_lookup aa jobs httpResps i k :
  length httpResps = length jobs →
  complete aa jobs httpResps i !! k =
    if bool_decide (k = i) then worker aa <$> jobs !! k else httpResps !! k.
Proof.
  intros Hlen. unfold complete. case_bool_decide as Hk.
  - subst k. destruct (jobs !! i) as [job|] eqn:Hjob; simpl.
    + apply list_lookup_insert_eq. rewrite Hlen. by eapply lookup_lt_Some.
    + apply lookup_ge_None. rewrite Hlen. by apply lookup_ge_None.
  - destruct (jobs !! i); [|done]. by apply list_lookup_insert_ne.
Qed.

(** After the workers of [sched] have completed, the slot of every one
    of them holds what that worker left, and every other slot is as it
    was. *)
Lemma completed_lookup aa jobs sched httpResps k :
  length httpResps = length jobs →
  foldl (complete aa jobs) httpResps sched !! k =
    if bool_decide (k ∈ sched) then worker aa <$> jobs !! k else httpResps !! k.
Proof.
  revert httpResps. induction sched as [|i sched IH]; intros httpResps Hlen.
  - by rewrite bool_decide_eq_false_2 by apply not_elem_of_nil.
  - change (foldl ?f ?a (i :: sched)) with (foldl f (f a i) sched).
    rewrite IH by (by rewrite complete_length).
    destruct (decide (k ∈ sched)) as [Hin|Hin].
    + rewrite (bool_decide_eq_true_2 _ Hin).
      by rewrite bool_decide_eq_true_2 by (apply elem_of_cons; auto).
    + rewrite (bool_decide_eq_false_2 _ Hin), complete_lookup by done.
      destruct (decide (k = i)) as [->|Hne].
      * rewrite (bool_decide_eq_true_2 (i = i)) by done.
        by rewrite bool_decide_eq_true_2 by (apply elem_of_cons; auto).
      * rewrite (bool_decide_eq_false_2 (k = i)) by done.
        by rewrite bool_decide_eq_false_2 by (by apply not_elem_of_cons).
Qed.

(** Whatever the order in which the workers complete, slot [i] holds
    what worker [i] left. *)
Lemma dispatch_any_order aa sched jobs :
  sched ≡ₚ seq 0 (length jobs) →
  dispatch aa sched jobs = worker aa <$> jobs.
Proof.
  intros Hperm. apply list_eq. intros k.
  unfold dispatch.
  rewrite completed_lookup by apply length_replicate.
  rewrite list_lookup_fmap.
  case_bool_decide as Hin; [done|].
  assert (length jobs ≤ k)%nat as Hk.
  { destruct (decide (k < length jobs)%nat); [|lia].
    exfalso. apply Hin. rewrite Hperm. apply elem_of_seq. lia. }
  rewrite (lookup_ge_None_2 jobs k Hk).
  apply lookup_ge_None_2. by rewrite length_replicate.
Qed.

(** What a worker leaves: the response of its pipeline when the pipeline
    is installed and answers with status 200, nothing otherwise. *)
Lemma worker_Some aa job rsp :
  worker aa job = Some rsp ↔
  ∃ handler, GetHTTPPipeline (rctc aa) job.1 = Some handler
             ∧ handler job.2 = Some rsp
             ∧ StatusCode rsp = 200.
Proof.
  unfold worker, StatusOK. split.
  - destruct (GetHTTPPipeline (rctc aa) job.1) as [handler|]; [|done].
    destruct (handler job.2) as [rsp'|] eqn:Hrsp; [|done].
    destruct (Z.eqb_spec (StatusCode rsp') 200); [|done].
    intros [= ->]. by exists handler.
  - intros (handler & -> & -> & ->). done.
Qed.

(** C5. When all workers have completed, in whatever order, there is one
    slot per job; slot [i] is what worker [i] left and depends on no
    other job; and it holds a response exactly when the pipeline of job
    [i] is installed and answered with status 200, and is empty for an
    unknown pipeline or any other status. *)
Theorem slot_filled_iff_status_200 aa sched jobs :
  sched ≡ₚ seq 0 (length jobs) →
  length (dispatch aa sched jobs) = length jobs
  ∧ (∀ i, dispatch aa sched jobs !! i = worker aa <$> jobs !! i)
  ∧ (∀ i name req rsp,
        jobs !! i = Some (name, req) →
        (dispatch aa sched jobs !! i = Some (Some rsp) ↔
         ∃ handler, GetHTTPPipeline (rctc aa) name = Some handler
                    ∧ handler req = Some rsp
                    ∧ StatusCode rsp = 200))
  ∧ (∀ i name req,
        jobs !! i = Some (name, req) →
        (dispatch aa sched jobs !! i = Some None ↔
         match GetHTTPPipeline (rctc aa) name with
         | None => True
         | Some handler =>
             match handler req with
             | Some rsp => StatusCode rsp ≠ 200
             | None => True
             end
         end)).
Proof.
  intros Hperm. rewrite dispatch_any_order by done.
  split; [by rewrite length_fmap|].
  split; [intros i; by rewrite list_lookup_fmap|].
  split.
  - intros i name req rsp Hjob.
    rewrite list_lookup_fmap, Hjob. simpl.
    rewrite <- (worker_Some aa (name, req) rsp).
    split; [by intros [= ->]|by intros ->].
  - intros i name req Hjob.
    rewrite list_lookup_fmap, Hjob. simpl.
    unfold worker, StatusOK. simpl.
    destruct (GetHTTPPipeline (rctc aa) name) as [handler|]; [|done].
    destruct (handler req) as [rsp|]; [|done].
    destruct (Z.eqb_spec (StatusCode rsp) 200); split; done.
Qed.

End workers.

(** ** From the slots to the map of bodies *)

Section collecting.
Import httpprot context apiaggregator aggregation.
Context `{HeaderNames} `{json.Codec} `{Collaborators}.

#[local] Instance readable_dec aa body : Decision (readable aa body).
Proof. unfold readable. apply _. Defined.

(** [copyHTTPBody2Map] stores exactly the readable bodies, whole; on
    every other body it returns [resultFailed] and stores nothing. *)
Lemma copyHTTPBody2Map_cases aa body ctx data name :
  (readable aa body
   ∧ copyHTTPBody2Map aa body ctx data name =
       ("", ctx, <[name := Go.pending body]> data))
  ∨ (¬ readable aa body
     ∧ ∃ ctx', copyHTTPBody2Map aa body ctx data name = (resultFailed, ctx', data)).
Proof.
  destruct (decide (readable aa body)) as [Hr|Hr].
  - left. split; [done|]. destruct Hr. by apply copyHTTPBody2Map_short.
  - right. split; [done|]. unfold readable in Hr.
    destruct (Z.lt_ge_cases (Z.of_nat (length (Go.pending body)))
                (MaxBodyBytes (spec aa))) as [Hlt|Hge].
    + destruct (Go.ending body) as [|msg] eqn:Hend; [tauto|].
      eexists. by eapply copyHTTPBody2Map_broken.
    + destruct (Z.lt_ge_cases (MaxBodyBytes (spec aa)) 0) as [Hneg|Hpos].
      * unfold copyHTTPBody2Map. rewrite CopyN_negative by done.
        destruct (Z.ltb_spec (MaxBodyBytes (spec aa)) 0); [|lia]. by eexists.
      * eexists. apply copyHTTPBody2Map_full. lia.
Qed.

Lemma storeAll_cons entry entries data :
  storeAll (entry :: entries) data = storeAll entries (<[entry.1 := entry.2]> data).
Proof. done. Qed.

(** When the loop over the slots runs to its end it leaves the context
    alone, every body met was readable and is stored under its name in
    slot order, and without partial success no slot was empty. *)
Lemma collect_Continue aa slots data ctx data' ctx' :
  collect aa slots data ctx = (Continue data', ctx') →
  ctx' = ctx
  ∧ data' = storeAll (successBodies slots) data
  ∧ Forall (slotReadable aa) slots
  ∧ (PartialSucceed (spec aa) = false → Forall slotFilled slots).
Proof.
  revert data. induction slots as [|[p resp] slots IH]; intros data Hc.
  - simpl in Hc. injection Hc as <- <-. repeat split; constructor.
  - simpl in Hc. destruct resp as [r|].
    + unfold successBodies. simpl. fold (successBodies slots).
      destruct (RespPayload r) as [body|] eqn:Hbody.
      * destruct (copyHTTPBody2Map_cases aa body ctx data (Name p))
          as [[Hr Hcopy]|[Hr [ctx1 Hcopy]]]; rewrite Hcopy in Hc; [|done].
        simpl in Hc. destruct (IH _ Hc) as (-> & -> & Hall & Hfill).
        repeat split; [|intros Hp]; constructor; auto.
        -- unfold slotReadable. simpl. by rewrite Hbody.
        -- by eexists.
      * destruct (IH _ Hc) as (-> & -> & Hall & Hfill).
        repeat split; [|intros Hp]; constructor; auto.
        -- unfold slotReadable. simpl. by rewrite Hbody.
        -- by eexists.
    + destruct (PartialSucceed (spec aa)) eqn:Hpart; [|done]. simpl in Hc.
      destruct (IH _ Hc) as (-> & -> & Hall & Hfill).
      repeat split; [|done]. constructor; [done|auto].
Qed.

(** Conversely the loop runs to its end when every body is readable and
    either partial success is on or no slot is empty. *)
Lemma collect_readable aa slots data ctx :
  Forall (slotReadable aa) slots →
  PartialSucceed (spec aa) = true ∨ Forall slotFilled slots →
  collect aa slots data ctx = (Continue (storeAll (successBodies slots) data), ctx).
Proof.
  revert data. induction slots as [|[p resp] slots IH]; intros data Hall Hfill.
  - done.
  - apply Forall_cons in Hall as [Hr Hall].
    assert (PartialSucceed (spec aa) = true ∨ Forall slotFilled slots) as Hfill'.
    { destruct Hfill as [?|Hfill]; [by left|right].
      by apply Forall_cons in Hfill as [_ ?]. }
    simpl. unfold successBodies. simpl. fold (successBodies slots).
    destruct resp as [r|].
    + unfold slotReadable in Hr. simpl in Hr.
      destruct (RespPayload r) as [body|]; [|by apply IH].
      destruct Hr as [Hlen Heof].
      rewrite copyHTTPBody2Map_short by done. simpl. by apply IH.
    + destruct Hfill as [->|Hfill]; [by apply IH|].
      apply Forall_cons in Hfill as [[? [=]] _].
Qed.

(** Without partial success the first empty slot ends the loop, provided
    the bodies of the slots before it were readable. *)
Lemma collect_first_empty aa pre p post data ctx :
  PartialSucceed (spec aa) = false →
  Forall slotFilled pre →
  Forall (slotReadable aa) pre →
  collect aa (pre ++ (p, None) :: post) data ctx =
    (Return resultFailed, unavailable (Name p) ctx).
Proof.
  intros Hpart. revert data.
  induction pre as [|[q resp] pre IH]; intros data Hfill Hall; simpl.
  - by rewrite Hpart.
  - apply Forall_cons in Hfill as [[r Hr] Hfill]. simpl in Hr. subst resp.
    apply Forall_cons in Hall as [Hread Hall].
    unfold slotReadable in Hread. simpl in Hread.
    destruct (RespPayload r) as [body|]; [|by apply IH].
    destruct Hread as [Hlen Heof].
    rewrite copyHTTPBody2Map_short by done. simpl. by apply IH.
Qed.

(** ** Up to the barrier *)

Lemma readRequestBody_Continue aa ctx buff ctx' :
  readRequestBody aa ctx = (Continue buff, ctx') → ctx' = ctx.
Proof.
  unfold readRequestBody.
  destruct (0 <? MaxBodyBytes (spec aa)); [|by intros [= _ <-]].
  destruct (Go.CopyN _ _) as [[buf written] err].
  destruct (MaxBodyBytes (spec aa) <? written); [done|].
  case_bool_decide; [done|]. by intros [= _ <-].
Qed.

Lemma newHTTPReq_response aa p buff ctx :
  CtxResponse (newHTTPReq aa p buff ctx).2 = CtxResponse ctx
  ∧ Tags (newHTTPReq aa p buff ctx).2 = Tags ctx.
Proof. unfold newHTTPReq. simpl. by destruct (pa p). Qed.

(** Building the requests touches the request's URL only, and gives one
    job per sub-target. *)
Lemma buildRequests_Continue aa buff ps ctx jobs ctx' :
  buildRequests aa buff ps ctx = (Continue jobs, ctx') →
  length jobs = length ps
  ∧ jobs.*1 = Name <$> ps
  ∧ CtxResponse ctx' = CtxResponse ctx
  ∧ Tags ctx' = Tags ctx.
Proof.
  revert ctx jobs ctx'.
  induction ps as [|p ps IH]; intros ctx jobs ctx' Hb; cbn [buildRequests] in Hb.
  - by injection Hb as <- <-.
  - destruct (newHTTPReq_response aa p buff ctx) as [Hresp Htags].
    destruct (newHTTPReq aa p buff ctx) as [[req|] ctx1]; [|done].
    unfold andThen in Hb.
    destruct (buildRequests aa buff ps ctx1) as [[jobs'|r] ctx2] eqn:Hrest; [|done].
    injection Hb as <- <-.
    destruct (IH _ _ _ Hrest) as (Hlen & Hnames & Hresp' & Htags').
    simpl in Hresp, Htags. split_and!.
    + simpl. by rewrite Hlen.
    + rewrite !fmap_cons. by rewrite Hnames.
    + by rewrite Hresp'.
    + by rewrite Htags'.
Qed.

(** The order in which the workers complete does not show in what
    [fanOut] hands on. *)
Lemma fanOut_any_order aa sched ctx :
  sched ≡ₚ seq 0 (length (Pipelines (spec aa))) →
  fanOut aa sched ctx = fanOut aa (seq 0 (length (Pipelines (spec aa)))) ctx.
Proof.
  intros Hperm. unfold fanOut, andThen.
  destruct (readRequestBody aa ctx) as [[buff|r] ctx1]; [|done].
  destruct (buildRequests aa buff (Pipelines (spec aa)) ctx1)
    as [[jobs|r] ctx2] eqn:Hjobs; [|done].
  apply buildRequests_Continue in Hjobs as (Hlen & _).
  rewrite !dispatch_any_order; by rewrite ?Hlen.
Qed.

(** [fanOut] hands on one slot per sub-target, in the order of the
    sub-target list, and leaves response and tags as they were. *)
Lemma fanOut_Continue aa sched ctx slots ctx1 :
  sched ≡ₚ seq 0 (length (Pipelines (spec aa))) →
  fanOut aa sched ctx = (Continue slots, ctx1) →
  slots.*1 = Pipelines (spec aa)
  ∧ CtxResponse ctx1 = CtxResponse ctx
  ∧ Tags ctx1 = Tags ctx.
Proof.
  intros Hperm. unfold fanOut, andThen.
  destruct (readRequestBody aa ctx) as [[buff|r] ctx0] eqn:Hread; [|done].
  apply readRequestBody_Continue in Hread as ->.
  destruct (buildRequests aa buff (Pipelines (spec aa)) ctx)
    as [[jobs|r] ctx2] eqn:Hjobs; [|done].
  apply buildRequests_Continue in Hjobs as (Hlen & _ & Hresp & Htags).
  intros [= <- <-]. split; [|done].
  apply fst_zip. rewrite dispatch_any_order by (by rewrite Hlen).
  rewrite length_fmap. lia.
Qed.

Lemma gather_fanOut aa sched ctx slots ctx1 :
  fanOut aa sched ctx = (Continue slots, ctx1) →
  gather aa sched ctx = collect aa slots ∅ ctx1.
Proof. intros Hf. unfold gather, andThen. by rewrite Hf. Qed.

Lemma Handle_gathered aa sched range ctx data ctx1 :
  gather aa sched ctx = (Continue data, ctx1) →
  Handle aa sched range ctx = formatResponse aa range data ctx1.
Proof.
  intros Hg. unfold Handle, finish, andThen. rewrite Hg.
  by destruct (formatResponse aa range data ctx1).
Qed.

Lemma Handle_returned aa sched range ctx r ctx1 :
  gather aa sched ctx = (Return r, ctx1) →
  Handle aa sched range ctx = (r, ctx1).
Proof. intros Hg. unfold Handle, finish, andThen. by rewrite Hg. Qed.

End collecting.

(** ** From the map of bodies to the document *)

Section formatting.
Import httpprot context apiaggregator aggregation.
Context `{HeaderNames} `{json.Codec} `{Collaborators}.

Lemma Unmarshal_object body m :
  isObject body →
  json.Unmarshal body m = Some (Some (objectOf body ∪ default ∅ m)).
Proof.
  unfold isObject, objectOf, json.Unmarshal.
  by destruct (json.decode body).
Qed.

Lemma mergeBodies_objects bodies acc :
  Forall isObject bodies →
  mergeBodies bodies (Some acc) =
    inr (Some (foldl (fun acc o => o ∪ acc) acc (objectOf <$> bodies))).
Proof.
  revert acc. induction bodies as [|body bodies IH]; intros acc Hall; [done|].
  apply Forall_cons in Hall as [Hobj Hall].
  cbn [mergeBodies]. rewrite Unmarshal_object by done.
  rewrite fmap_cons. cbn [foldl]. by apply IH.
Qed.

Lemma appendBodies_objects bodies result :
  Forall isObject bodies →
  appendBodies bodies result =
    inr (result ++ ((fun body => Some (objectOf body)) <$> bodies)).
Proof.
  revert result. induction bodies as [|body bodies IH]; intros result Hall.
  - simpl. by rewrite app_nil_r.
  - apply Forall_cons in Hall as [Hobj Hall].
    cbn [appendBodies]. rewrite Unmarshal_object by done.
    simpl. rewrite (right_id_L ∅ (∪)). rewrite IH by done.
    by rewrite <- app_assoc.
Qed.

(** When every body visited is a JSON object, [formatResponse] encodes
    the document made of the bodies in the order visited, and succeeds
    when the encoder does. *)
Lemma formatResponse_objects aa range data ctx buff :
  Forall isObject (range data).*2 →
  json.Marshal (aggregate (MergeResponse (spec aa)) (range data)) = Some buff →
  formatResponse aa range data ctx =
    ("", onResponse (SetPayload (Go.NewReader buff)) ctx).
Proof.
  intros Hobj Hm. unfold formatResponse, aggregate in *.
  destruct (MergeResponse (spec aa)).
  - rewrite mergeBodies_objects by done. unfold shallowMerge in Hm. by rewrite Hm.
  - rewrite appendBodies_objects by done. simpl. by rewrite Hm.
Qed.

(** *** The map of bodies *)

Lemma storeAll_app l1 l2 data :
  storeAll (l1 ++ l2) data = storeAll l2 (storeAll l1 data).
Proof. apply foldl_app. Qed.

Lemma storeAll_lookup_other entries data name :
  name ∉ entries.*1 → storeAll entries data !! name = data !! name.
Proof.
  revert data. induction entries as [|[k v] entries IH]; intros data Hnot; [done|].
  rewrite fmap_cons in Hnot. apply not_elem_of_cons in Hnot as [Hne Hnot].
  rewrite storeAll_cons, IH by done. simpl. by rewrite lookup_insert_ne.
Qed.

(** The entry stored last under a name is the one found there. *)
Lemma storeAll_lookup_last before name body after data :
  name ∉ after.*1 →
  storeAll (before ++ (name, body) :: after) data !! name = Some body.
Proof.
  intros Hnot. rewrite storeAll_app, storeAll_cons.
  rewrite storeAll_lookup_other by done. simpl. apply lookup_insert_eq.
Qed.

Lemma storeAll_list_to_map entries data :
  storeAll entries data = list_to_map (reverse entries) ∪ data.
Proof.
  revert data. induction entries as [|[k v] entries IH]; intros data.
  - simpl. by rewrite (left_id_L ∅ (∪)).
  - rewrite storeAll_cons, IH, reverse_cons, list_to_map_app. simpl.
    rewrite insert_empty, <- (assoc_L (∪)).
    by rewrite <- insert_union_singleton_l.
Qed.

(** Under distinct names the map holds the entries stored, each once. *)
Lemma storeAll_distinct entries :
  NoDup entries.*1 → map_to_list (storeAll entries ∅) ≡ₚ entries.
Proof.
  intros Hnd.
  rewrite storeAll_list_to_map, (right_id_L ∅ (∪)).
  rewrite map_to_list_to_map.
  - apply reverse_Permutation.
  - by rewrite fmap_reverse, reverse_Permutation.
Qed.

Lemma successBodies_names slots :
  (successBodies slots).*1 `sublist_of` (Name <$> slots.*1).
Proof.
  induction slots as [|[p resp] slots IH]; [done|].
  unfold successBodies. simpl. fold (successBodies slots).
  destruct resp as [r|]; [destruct (RespPayload r)|]; simpl;
    by constructor.
Qed.

Lemma successBodies_distinct slots :
  NoDup (Name <$> slots.*1) → NoDup (successBodies slots).*1.
Proof. intros Hnd. eapply sublist_NoDup; [done|apply successBodies_names]. Qed.

(** *** The shallow merge, when no key occurs twice *)

Lemma keysApart_cons o objs :
  keysApart (o :: objs) → keysApart objs ∧ Forall (fun o' => o ##ₘ o') objs.
Proof.
  intros Hk. split.
  - intros i j o1 o2 Hij H1' H2'. apply (Hk (S i) (S j)); by try lia.
  - apply Forall_lookup. intros i o' Ho'. by apply (Hk 0%nat (S i)).
Qed.

Lemma keysApart_perm objs1 objs2 :
  objs1 ≡ₚ objs2 → keysApart objs1 → keysApart objs2.
Proof.
  intros Hperm Hk i j o1 o2 Hij Hi Hj.
  symmetry in Hperm. apply Permutation_inj in Hperm as [_ (f & Hf & Hl)].
  rewrite Hl in Hi, Hj. apply (Hk (f i) (f j)); [|done..].
  intros Heq. by apply Hij, Hf.
Qed.

(** Objects that share no key merge to the same object in every order. *)
Lemma shallowMerge_any_order objs1 objs2 :
  objs1 ≡ₚ objs2 → keysApart objs1 → shallowMerge objs1 = shallowMerge objs2.
Proof.
  unfold shallowMerge. generalize (∅ : gmap string json.Value) as acc.
  intros acc Hperm. revert acc.
  induction Hperm as [|o l1 l2 Hperm IH|o1 o2 l|l1 l2 l3 Hp1 IH1 Hp2 IH2];
    intros acc Hk.
  - done.
  - simpl. apply keysApart_cons in Hk as [Hk _]. by apply IH.
  - simpl. rewrite !(assoc_L (∪)). do 2 f_equal.
    apply map_union_comm. by apply (Hk 1%nat 0%nat).
  - rewrite IH1 by done. apply IH2. by eapply keysApart_perm.
Qed.

End formatting.

(** ** What [Handle] of the aggregator returns *)

Section handle.
Import httpprot context apiaggregator aggregation.
Context `{HeaderNames} `{json.Codec} `{Collaborators}.

Lemma seq_schedule (n : nat) : seq 0 n ≡ₚ seq 0 n.
Proof. done. Qed.

Lemma successBodies_app l1 l2 :
  successBodies (l1 ++ l2) = successBodies l1 ++ successBodies l2.
Proof. apply omap_app. Qed.

(** An empty slot has no entry among the bodies. *)
Lemma successBodies_empty_slot pre p post :
  successBodies (pre ++ (p, None) :: post) = successBodies (pre ++ post).
Proof. by rewrite !successBodies_app. Qed.

(** C1, as the code has it. Let [Handle] reach [formatResponse] with the
    map [data] of collected bodies, every body visited being a JSON
    object and the encoder succeeding. Then [Handle] returns the success
    result and replaces the payload by the encoding of: with
    [mergeResponse], the shallow merge of the collected bodies taken left
    to right in the order [range data] in which this run iterates the map
    (a later key overwrites an earlier one); without it, the array of the
    collected bodies' objects in that same order. The order in which the
    workers completed does not matter. [data] holds the bodies of the
    filled slots stored by name in declaration order; when the sub-target
    names are distinct, [range data] is a permutation of those bodies in
    declaration order (so the array is a permutation of the
    declaration-order array), and when moreover no key occurs in two
    bodies the merged object is the declaration-order merge. *)
Theorem output_follows_map_iteration aa sched range ctx slots ctx1 data buff :
  sched ≡ₚ seq 0 (length (Pipelines (spec aa))) →
  range data ≡ₚ map_to_list data →
  fanOut aa (seq 0 (length (Pipelines (spec aa)))) ctx = (Continue slots, ctx1) →
  collect aa slots ∅ ctx1 = (Continue data, ctx1) →
  Forall isObject (range data).*2 →
  json.Marshal (aggregate (MergeResponse (spec aa)) (range data)) = Some buff →
  Handle aa sched range ctx =
    ("", onResponse (SetPayload (Go.NewReader buff)) ctx1)
  ∧ data = storeAll (successBodies slots) ∅
  ∧ (NoDup (Name <$> Pipelines (spec aa)) →
     range data ≡ₚ successBodies slots
     ∧ (keysApart (objectOf <$> (successBodies slots).*2) →
        aggregate true (range data) = aggregate true (successBodies slots))).
Proof.
  intros Hsched Hrange Hfan Hcol Hobj Hm.
  destruct (collect_Continue _ _ _ _ _ _ Hcol) as (_ & Hdata & _).
  split_and!.
  - erewrite Handle_gathered.
    + by apply formatResponse_objects.
    + erewrite gather_fanOut; [done|]. by rewrite fanOut_any_order.
  - done.
  - intros Hnames.
    apply fanOut_Continue in Hfan as (Hslots & _); [|done].
    assert (range data ≡ₚ successBodies slots) as Hperm.
    { rewrite Hrange, Hdata. apply storeAll_distinct, successBodies_distinct.
      by rewrite Hslots. }
    split; [done|]. intros Hkeys. unfold aggregate. do 2 f_equal.
    symmetry. apply shallowMerge_any_order; [|done].
    by rewrite Hperm.
Qed.

(** C4, as the code has it. Take an aggregation whose first empty slot
    is that of sub-target [p]. Without [partialSucceed], and when the
    bodies of the slots before it are readable (shorter than
    [MaxBodyBytes], cleanly ended), [Handle] returns [resultFailed] with
    status 503 and the header [X-EG-Aggregator: failed-in-<name of p>],
    and the payload is the one from before the call. With
    [partialSucceed], and when the bodies of all filled slots are
    readable, every body visited is a JSON object and the encoder
    succeeds, [Handle] returns the success result and the output is made
    of the map of bodies of the slots without the empty one. *)
Theorem first_empty_slot_decides aa sched range ctx pre p post ctx1 buff :
  let data := storeAll (successBodies (pre ++ post)) ∅ in
  sched ≡ₚ seq 0 (length (Pipelines (spec aa))) →
  fanOut aa sched ctx = (Continue (pre ++ (p, None) :: post), ctx1) →
  Forall slotFilled pre →
  (if PartialSucceed (spec aa)
   then Forall (slotReadable aa) (pre ++ post)
        ∧ Forall isObject (range data).*2
        ∧ json.Marshal (aggregate (MergeResponse (spec aa)) (range data)) = Some buff
   else Forall (slotReadable aa) pre) →
  if PartialSucceed (spec aa)
  then Handle aa sched range ctx =
         ("", onResponse (SetPayload (Go.NewReader buff)) ctx1)
  else Handle aa sched range ctx = (resultFailed, unavailable (Name p) ctx1)
       ∧ StatusCode (CtxResponse (Handle aa sched range ctx).2) = 503
       ∧ HeaderGet (RespHeader (CtxResponse (Handle aa sched range ctx).2))
           "X-EG-Aggregator" = Some ("failed-in-" +:+ Name p)
       ∧ RespPayload (CtxResponse (Handle aa sched range ctx).2)
         = RespPayload (CtxResponse ctx).
Proof.
  intros data Hsched Hfan Hfilled Hrest.
  pose proof (gather_fanOut _ _ _ _ _ Hfan) as Hg.
  destruct (PartialSucceed (spec aa)) eqn:Hpart.
  - destruct Hrest as (Hread & Hobj & Hm).
    rewrite collect_readable in Hg.
    + rewrite successBodies_empty_slot in Hg.
      erewrite Handle_gathered by done. by apply formatResponse_objects.
    + apply Forall_app in Hread as [Hpre Hpost].
      apply Forall_app. split; [done|]. by constructor.
    + by left.
  - rewrite collect_first_empty in Hg by done.
    apply fanOut_Continue in Hfan as (_ & Hresp & _); [|done].
    rewrite (Handle_returned _ _ _ _ _ _ Hg). split_and!; try done.
    + unfold unavailable, HeaderGet, HeaderValues, SetHeader, HeaderSet. simpl.
      by rewrite lookup_insert_eq.
    + simpl. by rewrite Hresp.
Qed.

(** C10. The bodies are stored by sub-target name, so the entries that
    [formatResponse] visits carry each name once; and when two filled
    slots have the same name, the entry visited under that name is the
    body of the one declared last. *)
Theorem same_name_keeps_last_body
    aa sched range ctx slots ctx1 data before name b1 between b2 after :
  sched ≡ₚ seq 0 (length (Pipelines (spec aa))) →
  range data ≡ₚ map_to_list data →
  fanOut aa sched ctx = (Continue slots, ctx1) →
  collect aa slots ∅ ctx1 = (Continue data, ctx1) →
  successBodies slots = before ++ (name, b1) :: between ++ (name, b2) :: after →
  name ∉ after.*1 →
  NoDup (range data).*1
  ∧ length (range data) = size data
  ∧ ∀ b, (name, b) ∈ range data ↔ b = b2.
Proof.
  intros Hsched Hrange Hfan Hcol Hbodies Hafter.
  destruct (collect_Continue _ _ _ _ _ _ Hcol) as (_ & Hdata & _).
  split_and!.
  - rewrite Hrange. apply NoDup_fst_map_to_list.
  - rewrite Hrange. apply length_map_to_list.
  - intros b. rewrite Hrange, elem_of_map_to_list, Hdata, Hbodies.
    replace (before ++ (name, b1) :: between ++ (name, b2) :: after)
      with ((before ++ (name, b1) :: between) ++ (name, b2) :: after)
      by (by rewrite <- app_assoc).
    rewrite storeAll_lookup_last by done.
    split; [by intros [= ->]|by intros ->].
Qed.

(** C3, as the code has it. With [MaxBodyBytes = 0] the inbound body is
    not read, but the first sub-target that answers 200 with a payload
    makes [Handle] fail with status 500, a failed read of the response
    body: there the limit is applied without the test for zero. And the
    schema of [MaxBodyBytes] ends at 102400, not at the 10MB of its
    comment. *)
Theorem zero_limit_fails_on_response aa sched range ctx p r body rest ctx1 :
  MaxBodyBytes (spec aa) = 0 →
  fanOut aa sched ctx = (Continue ((p, Some r) :: rest), ctx1) →
  RespPayload r = Some body →
  readRequestBody aa ctx = (Continue [], ctx)
  ∧ Handle aa sched range ctx = (resultFailed, responseReadFailed None ctx1)
  ∧ StatusCode (CtxResponse (Handle aa sched range ctx).2) = 500
  ∧ schemaMaxBodyBytes (10 * 1024 * 1024) = false
  ∧ documentedMaxBodyBytes (10 * 1024 * 1024) = true.
Proof.
  intros Hmax Hfan Hbody.
  assert (Handle aa sched range ctx = (resultFailed, responseReadFailed None ctx1))
    as Hh.
  { apply Handle_returned. rewrite (gather_fanOut _ _ _ _ _ Hfan).
    cbn [collect]. rewrite Hbody.
    rewrite copyHTTPBody2Map_full by (rewrite Hmax; lia). done. }
  split_and!; [|done|by rewrite Hh|done|done].
  unfold readRequestBody. by rewrite Hmax.
Qed.

End handle.

(** ** Hot reload: [Inherit] *)

Section inherit.
Context {Resources : Type}.
Import filters.

(** C6. For both filter kinds and every spec, previous generation and
    world, [Inherit] adds exactly two lifecycle calls to those made
    before: one [Close] of the previous generation, then the [Init] of the
    new generation with the new spec (whether or not that [Init] panics);
    and the previous generation's [Close] has taken effect on the
    resources. *)
Theorem Inherit_closes_previous_once_then_inits
    (previousGeneration : Filter Resources) (w : World Resources) :
  (∀ `{httpprot.HeaderNames} `{json.Codec} `{apiaggregator.Collaborators}
     (s : apiaggregator.Spec),
     let w' := (apiaggregator.Inherit s previousGeneration w).2 in
     calls w' =
       calls w ++ [CallClose (FilterKind previousGeneration)
                             (FilterName previousGeneration);
                   CallInit apiaggregator.Kind (apiaggregator.SpecName s)]
     ∧ resources w' = FilterClose previousGeneration (resources w))
  ∧ (∀ s : certextractor.Spec,
     let w' := (certextractor.Inherit s previousGeneration w).2 in
     calls w' =
       calls w ++ [CallClose (FilterKind previousGeneration)
                             (FilterName previousGeneration);
                   CallInit certextractor.Kind (certextractor.SpecName s)]
     ∧ resources w' = FilterClose previousGeneration (resources w)).
Proof.
  split.
  - intros Hn Hc Hcol s. unfold apiaggregator.Inherit, apiaggregator.Init.
    unfold Close, bind, record, release, ret, panic. simpl.
    destruct (apiaggregator.GetSystemController (apiaggregator.Super s)
                apiaggregator.rctcKind) as [[r|]|];
      simpl; by rewrite <- app_assoc.
  - intros s. unfold certextractor.Inherit, certextractor.Init.
    unfold Close, bind, record, release, ret. simpl.
    by rewrite <- app_assoc.
Qed.

End inherit.

(** ** The certificate extractor *)

Section certificates.
Import httpprot context certextractor extraction.
Context `{HeaderNames}.

(** The index arithmetic, where it cannot overflow: the signed index
    modulo the number of certificates. *)
Lemma certIndex_modulo ce (len : nat) :
  0 < Z.of_nat len <= 16384 →
  Go.in_int16 (CertIndex (spec ce)) →
  certIndex ce len = Go.Done (CertIndex (spec ce) `mod` Z.of_nat len).
Proof.
  intros Hlen Hidx. unfold certIndex, Go.rem, Go.exec_bind, Go.int16, Go.wrap.
  set (n := Z.of_nat len) in *. set (i := CertIndex (spec ce)) in *.
  change (2 ^ (16 - 1)) with 32768. change (2 ^ 16) with 65536.
  rewrite (Z.mod_small (n + 32768)) by lia.
  replace (n + 32768 - 32768) with n by lia.
  destruct (Z.eqb_spec n 0); [lia|].
  pose proof (Z.rem_bound_abs i n ltac:(lia)) as Hb.
  rewrite (Z.mod_small (n + Z.rem i n + 32768)) by lia.
  replace (n + Z.rem i n + 32768 - 32768) with (n + Z.rem i n) by lia.
  f_equal.
  rewrite Z.rem_mod_nonneg by lia.
  pose proof (Z.quot_rem' i n) as Hq.
  replace (n + Z.rem i n) with (i + (1 - i ÷ n) * n) by lia.
  apply Z_mod_plus_full.
Qed.

(** What the final loop leaves in the header: the values that are not
    empty, after the values already there. *)
Lemma addValues_values key values r key' :
  HeaderValues (ReqHeader (addValues key values r)) key' =
    HeaderValues (ReqHeader r) key'
    ++ (if bool_decide (canonicalKey key' = canonicalKey key)
        then filter (fun v => v ≠ "") values
        else []).
Proof.
  unfold addValues. revert r.
  induction values as [|v values IH]; intros r.
  - simpl. case_bool_decide; by rewrite app_nil_r.
  - cbn [foldl]. rewrite IH. clear IH.
    destruct (decide (v ≠ "")) as [Hv|Hv].
    + rewrite (bool_decide_eq_true_2 _ Hv), filter_cons_True by done.
      unfold AddHeader, HeaderAdd, HeaderValues. simpl.
      case_bool_decide as Hk.
      * rewrite Hk, lookup_insert_eq. simpl. by rewrite <- app_assoc.
      * rewrite lookup_insert_ne by done. by rewrite !app_nil_r.
    + rewrite (bool_decide_eq_false_2 _ Hv), filter_cons_False by done. done.
Qed.

(** Without TLS state or without a peer certificate [handle] changes
    nothing. *)
Lemma handle_without_certificates ce ctx :
  match TLS (CtxRequest ctx) with
  | None => True
  | Some cs => PeerCertificates cs = []
  end →
  Handle ce ctx = Go.Done ("", ctx).
Proof.
  unfold Handle, handle.
  destruct (TLS (CtxRequest ctx)) as [cs|]; [|done].
  by intros ->.
Qed.

(** What [Handle] adds under any name, whenever it returns: values that
    are not the empty string, after the values already there. No bound on
    the number of certificates is needed. *)
Lemma Handle_returned_values ce ctx r ctx' :
  Handle ce ctx = Go.Done (r, ctx') →
  r = ""
  ∧ CtxResponse ctx' = CtxResponse ctx
  ∧ ∀ key, ∃ added,
      HeaderValues (ReqHeader (CtxRequest ctx')) key =
        HeaderValues (ReqHeader (CtxRequest ctx)) key ++ added
      ∧ "" ∉ added.
Proof.
  assert (∀ key, ∃ added : list string,
            HeaderValues (ReqHeader (CtxRequest ctx)) key =
              HeaderValues (ReqHeader (CtxRequest ctx)) key ++ added
            ∧ "" ∉ added) as Hsame.
  { intros key. exists []. rewrite app_nil_r. split; [done|]. apply not_elem_of_nil. }
  unfold Handle, handle.
  destruct (TLS (CtxRequest ctx)) as [cs|]; [|by intros [= <- <-]].
  destruct (length (PeerCertificates cs) <? 1)%nat; [by intros [= <- <-]|].
  destruct (certIndex ce (length (PeerCertificates cs))) as [index|]; [|done].
  cbn [Go.exec_bind].
  destruct (Go.index (PeerCertificates cs) index) as [cert|]; [|done].
  cbn [Go.exec_bind]. intros [= <- <-]. split; [done|]. split; [done|].
  intros key. eexists. split; [apply addValues_values|].
  case_bool_decide; [|apply not_elem_of_nil].
  intros Hin. apply list_elem_of_filter in Hin as [Hne _]. by apply Hne.
Qed.

(** C7, as the code has it. Of 3 certificates, index 0 selects the first,
    -1 the last, 3 the first and -4 the last. For every number of
    certificates and every index, whenever [Handle] returns its result is
    the empty one, the response is left alone, and no empty string is
    added to any header. With at most 16384 peer certificates (the 16-bit
    index arithmetic then stays in range) the index computed is the signed
    index modulo the certificate count, [Handle] does return, and what it
    adds to the header [headerKey] are the values, other than the empty
    string, of the selected field of the certificate at that index, and
    nothing under another name. *)
Theorem certificate_by_index_modulo ce ctx :
  (∀ c1 c2 c3,
     (CertIndex (spec ce) = 0 ∨ CertIndex (spec ce) = 3 →
      certIndex ce 3 = Go.Done 0 ∧ selected ce [c1; c2; c3] = Some c1)
     ∧ (CertIndex (spec ce) = -1 ∨ CertIndex (spec ce) = -4 →
        certIndex ce 3 = Go.Done 2 ∧ selected ce [c1; c2; c3] = Some c3))
  ∧ (∀ r ctx',
       Handle ce ctx = Go.Done (r, ctx') →
       r = ""
       ∧ CtxResponse ctx' = CtxResponse ctx
       ∧ ∀ key, ∃ added,
           HeaderValues (ReqHeader (CtxRequest ctx')) key =
             HeaderValues (ReqHeader (CtxRequest ctx)) key ++ added
           ∧ "" ∉ added)
  ∧ (match TLS (CtxRequest ctx) with
     | Some cs => Z.of_nat (length (PeerCertificates cs)) <= 16384
     | None => True
     end →
     Go.in_int16 (CertIndex (spec ce)) →
     (∀ cs, TLS (CtxRequest ctx) = Some cs →
            PeerCertificates cs ≠ [] →
            certIndex ce (length (PeerCertificates cs)) =
              Go.Done (CertIndex (spec ce)
                         `mod` Z.of_nat (length (PeerCertificates cs))))
     ∧ ∃ ctx',
         Handle ce ctx = Go.Done ("", ctx')
         ∧ CtxResponse ctx' = CtxResponse ctx
         ∧ ∀ key,
             HeaderValues (ReqHeader (CtxRequest ctx')) key =
               HeaderValues (ReqHeader (CtxRequest ctx)) key
               ++ (if bool_decide (canonicalKey key = canonicalKey (headerKey ce))
                   then filter (fun v => v ≠ "") (selectedValues ce ctx)
                   else [])).
Proof.
  split; [|split].
  - intros c1 c2 c3. unfold selected, certIndex.
    split; intros [-> | ->]; by vm_compute.
  - intros r ctx'. apply Handle_returned_values.
  - intros Hlen Hidx. split.
    { intros cs Htls Hcerts. rewrite Htls in Hlen.
      apply certIndex_modulo; [|done].
      destruct (PeerCertificates cs); [done|]. simpl in *. lia. }
    unfold selectedValues, selected.
    destruct (TLS (CtxRequest ctx)) as [cs|] eqn:Htls.
    2: { exists ctx. rewrite handle_without_certificates by (by rewrite Htls).
         split_and!; [done..|]. intros key. case_bool_decide; by rewrite app_nil_r. }
    destruct (PeerCertificates cs) as [|c certs'] eqn:Hcerts.
    { exists ctx. rewrite handle_without_certificates by (by rewrite Htls).
      split_and!; [done..|]. intros key. case_bool_decide; by rewrite app_nil_r. }
    set (certs := c :: certs') in *.
    set (i := CertIndex (spec ce) `mod` Z.of_nat (length certs)).
    assert (0 < Z.of_nat (length certs)) as Hpos by (simpl; lia).
    assert (0 <= i < Z.of_nat (length certs)) as Hi
      by (apply Z.mod_pos_bound; lia).
    destruct (lookup_lt_is_Some_2 certs (Z.to_nat i)) as [cert Hcert]; [lia|].
    rewrite Hcert. eexists.
    unfold Handle, handle. rewrite Htls, Hcerts. fold certs.
    destruct (Nat.ltb_spec (length certs) 1); [lia|].
    rewrite certIndex_modulo by (done || lia). fold i. cbn [Go.exec_bind].
    unfold Go.index.
    destruct (Z.ltb_spec i 0); [lia|].
    destruct (Z.leb_spec (Z.of_nat (length certs)) i); [lia|].
    cbn [orb]. rewrite Hcert. cbn [Go.exec_bind]. split; [done|]. split; [done|].
    intros key. apply addValues_values.
Qed.

End certificates.

(** ** The fallback *)

Section fallback.
Import httpprot fallback.
Context `{HeaderNames}.

Lemma setHeaders_other (entries : list (string * string)) w key :
  canonicalKey key ∉ canonicalKey <$> entries.*1 →
  HeaderGet (RespHeader (foldl (fun w kv => SetHeader kv.1 kv.2 w) w entries)) key
  = HeaderGet (RespHeader w) key.
Proof.
  revert w. induction entries as [|[k v] entries IH]; intros w Hnot; [done|].
  rewrite !fmap_cons in Hnot. apply not_elem_of_cons in Hnot as [Hne Hnot].
  cbn [foldl]. rewrite IH by done.
  unfold HeaderGet, HeaderValues, SetHeader, HeaderSet. simpl.
  by rewrite lookup_insert_ne.
Qed.

Lemma setHeaders_member (entries : list (string * string)) w k v :
  NoDup (canonicalKey <$> entries.*1) →
  (k, v) ∈ entries →
  HeaderGet (RespHeader (foldl (fun w kv => SetHeader kv.1 kv.2 w) w entries)) k
  = Some v.
Proof.
  revert w. induction entries as [|[k' v'] entries IH]; intros w Hnd Hin.
  - by apply elem_of_nil in Hin.
  - rewrite !fmap_cons in Hnd. apply NoDup_cons in Hnd as [Hfresh Hnd].
    cbn [foldl]. apply elem_of_cons in Hin as [[= <- <-]|Hin].
    + rewrite setHeaders_other by done.
      unfold HeaderGet, HeaderValues, SetHeader, HeaderSet. simpl.
      by rewrite lookup_insert_eq.
    + by apply IH.
Qed.

Lemma setHeaders_rest (entries : list (string * string)) w :
  StatusCode (foldl (fun w kv => SetHeader kv.1 kv.2 w) w entries) = StatusCode w.
Proof.
  revert w. induction entries as [|kv entries IH]; intros w; [done|].
  cbn [foldl]. by rewrite IH.
Qed.

(** Whatever the entries, a header that one of them names ends with the
    value of one of the entries that name it. *)
Lemma setHeaders_named (entries : list (string * string)) w key :
  canonicalKey key ∈ canonicalKey <$> entries.*1 →
  ∃ k v, (k, v) ∈ entries
         ∧ canonicalKey k = canonicalKey key
         ∧ HeaderGet (RespHeader (foldl (fun w kv => SetHeader kv.1 kv.2 w) w entries)) key
           = Some v.
Proof.
  revert w. induction entries as [|[k0 v0] entries IH]; intros w Hin.
  - by apply elem_of_nil in Hin.
  - cbn [foldl].
    destruct (decide (canonicalKey key ∈ canonicalKey <$> entries.*1)) as [Hrest|Hrest].
    + destruct (IH (SetHeader k0 v0 w) Hrest) as (k & v & Hkv & Hk & Hget).
      exists k, v. split; [by apply elem_of_cons; right|done].
    + rewrite !fmap_cons in Hin. apply elem_of_cons in Hin as [Hk0|Hin]; [|done].
      exists k0, v0. split; [by apply elem_of_cons; left|]. split; [done|].
      rewrite setHeaders_other by done.
      unfold HeaderGet, HeaderValues, SetHeader, HeaderSet. simpl.
      by rewrite Hk0, lookup_insert_eq.
Qed.

(** C9, as the code has it. For a fallback made by [New] and every
    response, whatever the order in which the mock headers are visited
    and whatever the configured names: the status code is the mock code
    and the payload is the mock body; the content-length header is the
    decimal length of the mock body unless one of the configured names
    denotes the content-length header, and is then the configured value
    of such a name (the configured values are set after the length).
    Every mock header has its configured value, provided no two
    configured names denote the same header. *)
Theorem Fallback_sets_mock s range w :
  let f := New s in
  let w' := Fallback_Fallback f range w in
  range (MockHeaders s) ≡ₚ map_to_list (MockHeaders s) →
  StatusCode w' = MockCode s
  ∧ RespPayload w' = Some (Go.NewReader (String.list_byte_of_string (MockBody s)))
  ∧ (NoDup (canonicalKey <$> (map_to_list (MockHeaders s)).*1) →
     ∀ k v, MockHeaders s !! k = Some v → HeaderGet (RespHeader w') k = Some v)
  ∧ (canonicalKey KeyContentLength ∉ canonicalKey <$> (map_to_list (MockHeaders s)).*1 →
     HeaderGet (RespHeader w') KeyContentLength
     = Some (pretty (Z.of_nat (length (String.list_byte_of_string (MockBody s))))))
  ∧ (canonicalKey KeyContentLength ∈ canonicalKey <$> (map_to_list (MockHeaders s)).*1 →
     ∃ k v, MockHeaders s !! k = Some v
            ∧ canonicalKey k = canonicalKey KeyContentLength
            ∧ HeaderGet (RespHeader w') KeyContentLength = Some v).
Proof.
  intros f w' Hrange. subst f w'. unfold Fallback_Fallback, New. simpl.
  split_and!.
  - by rewrite setHeaders_rest.
  - done.
  - intros Hnd k v Hkv. apply setHeaders_member.
    + by rewrite Hrange.
    + rewrite Hrange. by apply elem_of_map_to_list.
  - intros Hnot. rewrite setHeaders_other by (by rewrite Hrange).
    unfold HeaderGet, HeaderValues, SetHeader, HeaderSet. simpl.
    by rewrite lookup_insert_eq.
  - intros Hin. rewrite <- Hrange in Hin.
    destruct (setHeaders_named _
                (SetHeader KeyContentLength
                   (pretty (Z.of_nat (length (String.list_byte_of_string (MockBody s)))))
                   (SetStatusCode (MockCode s) w))
                _ Hin) as (k & v & Hkv & Hk & Hget).
    exists k, v. split; [|done].
    rewrite Hrange in Hkv. by apply elem_of_map_to_list in Hkv.
Qed.

End fallback.

(** ** Worked examples *)

(** Closes a decidable goal on concrete data by evaluation. *)
Ltac by_evaluation := apply (bool_decide_unpack _); by vm_compute.

Section examples.
Import httpprot context apiaggregator aggregation sample.

Lemma descending_valid {A} (m : gmap string A) : descending m ≡ₚ map_to_list m.
Proof. apply reverse_Permutation. Qed.

(** C1 fails as stated. Sub-targets [a] and [b] answer [{"x":1}] and
    [{"x":2}]. The merge in declaration order is [{"x":2}], the array in
    declaration order [[{"x":1},{"x":2}]]; on a run that visits the map
    of bodies from [b] to [a], [Handle] gives [{"x":1}], and in array mode
    [[{"x":2},{"x":1}]]. *)
Lemma declaration_order_not_kept :
  let targets := [target "a"; target "b"] in
  let merging := aggregator 100 false true targets body_x1 body_x2 in
  let listing := aggregator 100 false false targets body_x1 body_x2 in
  descending ({[ "a" := body_x1; "b" := body_x2 ]} : gmap string (list byte))
    ≡ₚ map_to_list ({[ "a" := body_x1; "b" := body_x2 ]} : gmap string (list byte))
  ∧ (∃ slots,
       fanOut merging [0; 1]%nat inbound = (Continue slots, inbound)
       ∧ fanOut listing [0; 1]%nat inbound = (Continue slots, inbound)
       ∧ successBodies slots = [("a", body_x1); ("b", body_x2)])
  ∧ json.Marshal (aggregate true [("a", body_x1); ("b", body_x2)]) = Some body_x2
  ∧ Handle merging [0; 1]%nat descending inbound =
      ("", onResponse (SetPayload (Go.NewReader body_x1)) inbound)
  ∧ body_x1 ≠ body_x2
  ∧ json.Marshal (aggregate false [("a", body_x1); ("b", body_x2)]) = Some array_x1_x2
  ∧ Handle listing [0; 1]%nat descending inbound =
      ("", onResponse (SetPayload (Go.NewReader array_x2_x1)) inbound)
  ∧ array_x1_x2 ≠ array_x2_x1.
Proof.
  intros targets merging listing. split_and!.
  - apply descending_valid.
  - eexists. split_and!; [vm_compute; reflexivity..].
  - by vm_compute.
  - by vm_compute.
  - done.
  - by vm_compute.
  - by vm_compute.
  - done.
Qed.

Lemma output_follows_map_iteration_witness :
  let aa := aggregator 100 false true [target "a"; target "b"] body_x1 body_y2 in
  Handle aa [1; 0]%nat descending inbound =
    ("", onResponse (SetPayload (Go.NewReader body_y2_x1)) inbound)
  ∧ aggregate true (descending ({[ "a" := body_x1; "b" := body_y2 ]}
                                  : gmap string (list byte)))
    = aggregate true [("a", body_x1); ("b", body_y2)].
Proof.
  intros aa.
  destruct (output_follows_map_iteration aa [1; 0]%nat descending inbound
              [(target "a", Some (respond 200 body_x1));
               (target "b", Some (respond 200 body_y2))]
              inbound {[ "a" := body_x1; "b" := body_y2 ]} body_y2_x1)
    as (Hhandle & _ & Horder).
  - apply perm_swap.
  - apply descending_valid.
  - by vm_compute.
  - by vm_compute.
  - repeat constructor.
  - by vm_compute.
  - split; [exact Hhandle|].
    destruct Horder as [_ Hmerge].
    + by_evaluation.
    + apply Hmerge. intros i j o1 o2 Hij Hi Hj.
      destruct i as [|[|i]], j as [|[|j]]; try done;
        injection Hi as <-; injection Hj as <-; by_evaluation.
Defined.

Lemma response_limit_differs_from_request_limit_witness :
  let aa := aggregator 7 false true [target "a"] body_x1 body_x2 in
  let ctx := inboundWith body_x1 in
  readRequestBody aa ctx = (Continue body_x1, ctx)
  ∧ copyHTTPBody2Map aa (Go.NewReader body_x1) ctx ∅ "a" =
      (resultFailed,
       onResponse (SetStatusCode StatusInternalServerError)
         (AddTag (TagReadResponseBodyFailed None) ctx),
       ∅).
Proof.
  intros aa ctx.
  apply (response_limit_differs_from_request_limit aa ctx ∅ "a").
  - done.
  - unfold Go.in_int64. simpl. lia.
  - simpl. lia.
  - done.
Defined.

(** The same limit seen from [Handle]: sub-target [a] answers with the 7
    bytes of [{"x":1}] under a limit of 7. *)
Example Handle_rejects_response_of_limit_size :
  Handle (aggregator 7 false true [target "a"] body_x1 body_x2)
    [0]%nat ascending (inboundWith body_x1)
  = (resultFailed, responseReadFailed None (inboundWith body_x1)).
Proof. by vm_compute. Qed.

Lemma zero_limit_fails_on_response_witness :
  let aa := aggregator 0 false true [target "a"] body_empty body_x2 in
  readRequestBody aa inbound = (Continue [], inbound)
  ∧ Handle aa [0]%nat ascending inbound = (resultFailed, responseReadFailed None inbound)
  ∧ StatusCode (CtxResponse (Handle aa [0]%nat ascending inbound).2) = 500.
Proof.
  intros aa.
  destruct (zero_limit_fails_on_response aa [0]%nat ascending inbound
              (target "a") (respond 200 body_empty) (Go.NewReader body_empty)
              [] inbound)
    as (Hread & Hhandle & Hstatus & _); by vm_compute || done.
Defined.

(** C4 fails as stated. Sub-target [cut] answers 200 with a body whose
    read breaks off, sub-target [c] is not installed and its slot stays
    empty; partial success is off. [Handle] returns the failed result with
    status 500 and without the header, not 503. *)
Lemma read_failure_precedes_empty_slot :
  let aa := aggregator 100 false true [target "cut"; target "c"] body_x1 body_x2 in
  PartialSucceed (spec aa) = false
  ∧ (∃ r, fanOut aa [0; 1]%nat inbound =
            (Continue [(target "cut", Some r); (target "c", None)], inbound))
  ∧ (Handle aa [0; 1]%nat ascending inbound).1 = resultFailed
  ∧ StatusCode (CtxResponse (Handle aa [0; 1]%nat ascending inbound).2) = 500
  ∧ StatusCode (CtxResponse (Handle aa [0; 1]%nat ascending inbound).2) ≠ 503
  ∧ HeaderGet (RespHeader (CtxResponse (Handle aa [0; 1]%nat ascending inbound).2))
      "X-EG-Aggregator" = None.
Proof.
  intros aa. split_and!; try by vm_compute.
  eexists. vm_compute. reflexivity.
Qed.

Lemma first_empty_slot_decides_witness :
  let aa := aggregator 100 true true [target "c"; target "a"] body_x1 body_x2 in
  Handle aa [1; 0]%nat descending inbound =
    ("", onResponse (SetPayload (Go.NewReader body_x1)) inbound).
Proof.
  intros aa.
  apply (first_empty_slot_decides aa [1; 0]%nat descending inbound
           [] (target "c") [(target "a", Some (respond 200 body_x1))]
           inbound body_x1).
  - apply perm_swap.
  - by vm_compute.
  - constructor.
  - split_and!.
    + repeat constructor.
    + repeat constructor.
    + by vm_compute.
Defined.

(** Without partial success: [a] answers, [c] is not installed. *)
Example Handle_names_first_empty_slot :
  let aa := aggregator 100 false true [target "a"; target "c"] body_x1 body_x2 in
  Handle aa [1; 0]%nat ascending inbound = (resultFailed, unavailable "c" inbound)
  ∧ StatusCode (CtxResponse (Handle aa [1; 0]%nat ascending inbound).2) = 503
  ∧ HeaderGet (RespHeader (CtxResponse (Handle aa [1; 0]%nat ascending inbound).2))
      "X-EG-Aggregator" = Some "failed-in-c"
  ∧ RespPayload (CtxResponse (Handle aa [1; 0]%nat ascending inbound).2) = None.
Proof. by vm_compute. Qed.

Lemma slot_filled_iff_status_200_witness :
  let aa := aggregator 100 false true [] body_x1 body_x2 in
  let jobs := [("a", plainRequest); ("down", plainRequest); ("nowhere", plainRequest)] in
  dispatch aa [2; 0; 1]%nat jobs = [Some (respond 200 body_x1); None; None].
Proof.
  intros aa jobs.
  destruct (slot_filled_iff_status_200 aa [2; 0; 1]%nat jobs) as (_ & Hslots & _).
  - simpl. by rewrite (Permutation_cons_append [0; 1]%nat 2%nat).
  - apply list_eq. intros i. rewrite Hslots.
    by destruct i as [|[|[|i]]].
Defined.

Lemma same_name_keeps_last_body_witness :
  let aa := aggregator 100 false false
              [targetVia "m" "GET"; targetVia "m" "POST"] body_x1 body_x2 in
  Handle aa [0; 1]%nat ascending inbound =
    ("", onResponse (SetPayload (Go.NewReader ([x5b] ++ body_x2 ++ [x5d]))) inbound)
  ∧ ∀ b, ("m", b) ∈ ascending ({[ "m" := body_x2 ]} : gmap string (list byte))
         ↔ b = body_x2.
Proof.
  intros aa. split; [by vm_compute|].
  apply (same_name_keeps_last_body aa [0; 1]%nat ascending inbound
           [(targetVia "m" "GET", Some (respond 200 body_x1));
            (targetVia "m" "POST", Some (respond 200 body_x2))]
           inbound {[ "m" := body_x2 ]} [] "m" body_x1 [] body_x2 []).
  - done.
  - done.
  - by vm_compute.
  - by vm_compute.
  - by vm_compute.
  - apply not_elem_of_nil.
Defined.

End examples.

Section more_examples.
Import httpprot context sample.

(** C7 fails as stated. Of three certificates with the common names
    [first], none and [third], index -4 selects the last, not the first:
    -4 is -1 modulo 3. *)
Lemma index_minus_four_selects_last :
  certextractor.certIndex (extractor (-4)) 3 = Go.Done 2
  ∧ certextractor.certIndex (extractor (-4)) 3 ≠ Go.Done 0
  ∧ ∃ ctx',
      certextractor.Handle (extractor (-4)) overTLS = Go.Done ("", ctx')
      ∧ HeaderValues (ReqHeader (CtxRequest ctx')) "X-CN" = ["third"].
Proof.
  split_and!; [by vm_compute|by vm_compute|].
  eexists. split; [by vm_compute|by vm_compute].
Qed.

(** Index 4 selects the second certificate, whose common name is empty:
    no header entry comes of it. *)
Lemma certificate_by_index_modulo_witness :
  extraction.selected (extractor 4) (PeerCertificates threeCertificates)
    = Some (certificate "")
  ∧ ∃ ctx',
      certextractor.Handle (extractor 4) overTLS = Go.Done ("", ctx')
      ∧ HeaderValues (ReqHeader (CtxRequest ctx')) "X-CN" = [].
Proof.
  split; [done|].
  destruct (certificate_by_index_modulo (extractor 4) overTLS)
    as (_ & _ & Hbounded).
  destruct Hbounded as [_ (ctx' & Hhandle & _ & Hvalues)].
  - simpl. lia.
  - unfold Go.in_int16. simpl. lia.
  - exists ctx'. split; [exact Hhandle|].
    rewrite Hvalues. by vm_compute.
Defined.

(** The four indexes of the example, on three certificates. *)
Example three_certificates_indexes :
  certextractor.certIndex (extractor 0) 3 = Go.Done 0
  ∧ certextractor.certIndex (extractor (-1)) 3 = Go.Done 2
  ∧ certextractor.certIndex (extractor 3) 3 = Go.Done 0
  ∧ certextractor.certIndex (extractor (-4)) 3 = Go.Done 2.
Proof. by vm_compute. Qed.

(** Past 16384 certificates the 16-bit sum overflows: with 20000
    certificates and index 19999 the index computed is negative and the
    selection panics. *)
Example certIndex_overflow :
  certextractor.certIndex (extractor 19999) (Z.to_nat 20000) = Go.Done (-5537).
Proof. by vm_compute. Qed.

(** With 20000 certificates the selection panics. *)
Example Handle_panics_past_the_index_range :
  certextractor.Handle (extractor 19999)
    (onRequest (fun r => {| Method := Method r; URLPath := URLPath r;
                            ReqHeader := ReqHeader r; ReqPayload := ReqPayload r;
                            TLS := Some {| PeerCertificates :=
                                             replicate (Z.to_nat 20000) (certificate "cn") |} |})
       overTLS)
  = Go.Panic "index out of range".
Proof. by vm_compute. Qed.

(** A certificate extractor is replaced by an aggregator whose spec has
    no traffic controller to offer: [Init] panics, after the previous
    generation was closed. *)
Example Inherit_closes_before_a_panicking_Init :
  apiaggregator.Inherit
    (apiaggregator.spec (aggregator 100 false true [target "a"] body_x1 body_x2))
    (certextractor.asFilter (extractor 0))
    {| filters.calls := []; filters.resources := tt |}
  = (Go.Panic "BUG: raw config traffic controller not found",
     {| filters.calls := [filters.CallClose "CertExtractor" "cn";
                          filters.CallInit "APIAggregator" "agg"];
        filters.resources := tt |}).
Proof. by vm_compute. Qed.

(** C9 fails as stated. The mock headers name [Content-Length]
    themselves, with the value 999; the mock body has 2 bytes. After
    [Fallback] the content-length header is 999. *)
Lemma content_length_overwritten_by_mock_header :
  let f := fallback.New mockWithLength in
  let w' := fallback.Fallback_Fallback f ascending blank in
  fallback.bodyLength f = "2"
  ∧ HeaderGet (RespHeader w') KeyContentLength = Some "999"
  ∧ HeaderGet (RespHeader w') KeyContentLength ≠ Some (fallback.bodyLength f).
Proof. by vm_compute. Qed.

Lemma Fallback_sets_mock_witness :
  let w' := fallback.Fallback_Fallback (fallback.New mockPlain) descending blank in
  StatusCode w' = 503
  ∧ RespPayload w' = Some (Go.NewReader [x61; x62])
  ∧ HeaderGet (RespHeader w') "X-Mock" = Some "yes"
  ∧ HeaderGet (RespHeader w') "Retry-After" = Some "1"
  ∧ HeaderGet (RespHeader w') KeyContentLength = Some "2".
Proof.
  intros w'.
  destruct (Fallback_sets_mock mockPlain descending blank)
    as (Hcode & Hbody & Hheaders & Hlength & _).
  - apply reverse_Permutation.
  - split_and!.
    + exact Hcode.
    + exact Hbody.
    + apply Hheaders; [by_evaluation|done].
    + apply Hheaders; [by_evaluation|done].
    + apply Hlength. by_evaluation.
Defined.

End more_examples.

(* ===================================================================== *)
(** * Further properties of the aggregator *)
(* ===================================================================== *)

Section bodies.
Import httpprot context apiaggregator aggregation.
Context `{HeaderNames} `{json.Codec} `{Collaborators}.

Lemma copyHTTPBody2Map_by_cases aa body ctx data name :
  copyHTTPBody2Map aa body ctx data name =
    if MaxBodyBytes (spec aa) <? 0 then
      (resultFailed,
       onResponse (SetStatusCode StatusInsufficientStorage)
         (AddTag (TagResponseBodyExceed (MaxBodyBytes (spec aa))) ctx),
       data)
    else if Z.of_nat (length (Go.pending body)) <? MaxBodyBytes (spec aa) then
      match Go.ending body with
      | Go.EOF => ("", ctx, <[name := Go.pending body]> data)
      | e => (resultFailed, responseReadFailed (Some e) ctx, data)
      end
    else (resultFailed, responseReadFailed None ctx, data).
Proof.
  destruct (Z.ltb_spec (MaxBodyBytes (spec aa)) 0) as [Hneg|Hpos].
  - unfold copyHTTPBody2Map. rewrite CopyN_negative by done.
    by destruct (Z.ltb_spec (MaxBodyBytes (spec aa)) 0); [|lia].
  - destruct (Z.ltb_spec (Z.of_nat (length (Go.pending body)))
                (MaxBodyBytes (spec aa))) as [Hlt|Hge].
    + destruct (Go.ending body) as [|msg] eqn:Hend.
      * by apply copyHTTPBody2Map_short.
      * by apply copyHTTPBody2Map_broken.
    + apply copyHTTPBody2Map_full. lia.
Qed.

(** X5. What [copyHTTPBody2Map] does with a body. It returns the empty
    result exactly for a body shorter than the limit that ends cleanly;
    the body is then stored whole under the name and the context stays as
    it is. For every other body it returns [resultFailed], stores
    nothing, leaves payload and header alone and sets the status: 500
    (the read broke off, or the body has [MaxBodyBytes] bytes or more)
    under a limit that is not negative, and 507 only under a negative
    limit. *)
Theorem copyHTTPBody2Map_outcome aa body ctx data name :
  let out := copyHTTPBody2Map aa body ctx data name in
  (out.1.1 = "" ↔ readable aa body)
  ∧ (out.1.1 = "" → out = ("", ctx, <[name := Go.pending body]> data))
  ∧ (out.1.1 ≠ "" →
     out.1.1 = resultFailed
     ∧ out.2 = data
     ∧ RespPayload (CtxResponse out.1.2) = RespPayload (CtxResponse ctx)
     ∧ RespHeader (CtxResponse out.1.2) = RespHeader (CtxResponse ctx)
     ∧ StatusCode (CtxResponse out.1.2)
       = if MaxBodyBytes (spec aa) <? 0 then 507 else 500).
Proof.
  cbv zeta. rewrite copyHTTPBody2Map_by_cases. unfold readable.
  destruct (Z.ltb_spec (MaxBodyBytes (spec aa)) 0) as [Hneg|Hpos].
  { split_and!; [split|..]; simpl; try done. lia. }
  destruct (Z.ltb_spec (Z.of_nat (length (Go.pending body)))
              (MaxBodyBytes (spec aa))) as [Hlt|Hge].
  - destruct (Go.ending body) as [|msg]; simpl.
    + split_and!; [split|..]; done.
    + split_and!; [split|..]; try done. by intros [_ ?].
  - simpl. split_and!; [split|..]; try done. lia.
Qed.

Lemma collect_Return aa slots data ctx r ctx' :
  collect aa slots data ctx = (Return r, ctx') → r = resultFailed.
Proof.
  revert data ctx. induction slots as [|[p resp] slots IH]; intros data ctx Hc.
  - done.
  - cbn [collect] in Hc. destruct resp as [rsp|].
    + destruct (RespPayload rsp) as [body|]; [|by eapply IH].
      destruct (copyHTTPBody2Map_cases aa body ctx data (Name p))
        as [[_ Hcopy]|[_ [ctx1 Hcopy]]]; rewrite Hcopy in Hc; simpl in Hc.
      * by eapply IH.
      * by injection Hc as <- _.
    + destruct (PartialSucceed (spec aa)); simpl in Hc.
      * by eapply IH.
      * by injection Hc as <- _.
Qed.

(** X6. The loop over the slots runs to its end exactly when the body of
    every filled slot is readable and, unless partial success is on, no
    slot is empty; it then hands on the bodies stored by name and the
    context untouched. In every other case it returns [resultFailed]. *)
Theorem collect_runs_through_iff aa slots data ctx :
  (collect aa slots data ctx
     = (Continue (storeAll (successBodies slots) data), ctx)
   ↔ Forall (slotReadable aa) slots
     ∧ (PartialSucceed (spec aa) = true ∨ Forall slotFilled slots))
  ∧ ((∃ ctx', collect aa slots data ctx = (Return resultFailed, ctx'))
     ∨ collect aa slots data ctx
         = (Continue (storeAll (successBodies slots) data), ctx)).
Proof.
  split.
  - split.
    + intros Hc. destruct (collect_Continue _ _ _ _ _ _ Hc) as (_ & _ & Hr & Hf).
      split; [done|]. destruct (PartialSucceed (spec aa)); [by left|right; auto].
    + intros [Hr Hf]. by apply collect_readable.
  - destruct (collect aa slots data ctx) as [[data'|r] ctx'] eqn:Hc.
    + right. by destruct (collect_Continue _ _ _ _ _ _ Hc) as (-> & -> & _).
    + left. exists ctx'. by rewrite (collect_Return _ _ _ _ _ _ Hc).
Qed.

Lemma collect_skips_prefix aa pre rest data ctx :
  Forall (slotReadable aa) pre →
  PartialSucceed (spec aa) = true ∨ Forall slotFilled pre →
  collect aa (pre ++ rest) data ctx
  = collect aa rest (storeAll (successBodies pre) data) ctx.
Proof.
  revert data. induction pre as [|[q resp] pre IH]; intros data Hall Hfill; [done|].
  apply Forall_cons in Hall as [Hr Hall].
  assert (PartialSucceed (spec aa) = true ∨ Forall slotFilled pre) as Hfill'.
  { destruct Hfill as [?|Hfill]; [by left|right].
    by apply Forall_cons in Hfill as [_ ?]. }
  rewrite <- app_comm_cons. cbn [collect].
  unfold successBodies. simpl. fold (successBodies pre).
  destruct resp as [r|].
  - unfold slotReadable in Hr. simpl in Hr.
    destruct (RespPayload r) as [body|]; [|by apply IH].
    destruct Hr as [Hlen Heof].
    rewrite copyHTTPBody2Map_short by done. simpl. by apply IH.
  - destruct Hfill as [->|Hfill]; [by apply IH|].
    apply Forall_cons in Hfill as [[? [=]] _].
Qed.

(** X7. Partial success does not cover a body that cannot be read. When
    the first slot that is not in order holds a body of [MaxBodyBytes]
    bytes or more, or one whose read breaks off, [Handle] returns
    [resultFailed] with status 500, whatever [partialSucceed] says and
    whatever the slots after it hold. *)
Theorem unreadable_body_fails_aggregation
    aa sched range ctx pre p r body post ctx1 :
  0 <= MaxBodyBytes (spec aa) →
  fanOut aa sched ctx = (Continue (pre ++ (p, Some r) :: post), ctx1) →
  RespPayload r = Some body →
  ¬ readable aa body →
  Forall (slotReadable aa) pre →
  PartialSucceed (spec aa) = true ∨ Forall slotFilled pre →
  (Handle aa sched range ctx).1 = resultFailed
  ∧ StatusCode (CtxResponse (Handle aa sched range ctx).2) = 500
  ∧ RespPayload (CtxResponse (Handle aa sched range ctx).2)
    = RespPayload (CtxResponse ctx1).
Proof.
  intros Hmax Hfan Hbody Hbad Hpre Hfill.
  assert (∃ err, Handle aa sched range ctx
                 = (resultFailed, responseReadFailed err ctx1)) as [err ->].
  { pose proof (copyHTTPBody2Map_by_cases aa body ctx1
                  (storeAll (successBodies pre) ∅) (Name p)) as Hcopy.
    destruct (Z.ltb_spec (MaxBodyBytes (spec aa)) 0); [lia|].
    assert (∃ err, copyHTTPBody2Map aa body ctx1
                     (storeAll (successBodies pre) ∅) (Name p)
                   = (resultFailed, responseReadFailed err ctx1,
                      storeAll (successBodies pre) ∅)) as [err Herr].
    { rewrite Hcopy.
      destruct (Z.ltb_spec (Z.of_nat (length (Go.pending body)))
                  (MaxBodyBytes (spec aa))) as [Hlt|Hge]; [|by eexists].
      destruct (Go.ending body) eqn:Hend; [|by eexists].
      exfalso. apply Hbad. by split. }
    exists err. apply Handle_returned.
    rewrite (gather_fanOut _ _ _ _ _ Hfan), collect_skips_prefix by done.
    cbn [collect]. by rewrite Hbody, Herr. }
  done.
Qed.

End bodies.

Section outcomes.
Import httpprot context apiaggregator aggregation derivation.
Context `{HeaderNames} `{json.Codec} `{Collaborators}.

Lemma CopyN_EOF src n buf written :
  Go.CopyN src n = (buf, written, Some Go.EOF) →
  buf = Go.pending src
  ∧ written = Z.of_nat (length (Go.pending src))
  ∧ Z.of_nat (length (Go.pending src)) < n
  ∧ Go.ending src = Go.EOF.
Proof.
  unfold Go.CopyN, Go.CopyLimited.
  destruct (Z.leb_spec n 0) as [Hn|Hn].
  - destruct (Z.eqb_spec 0 n); [done|].
    destruct (Z.ltb_spec 0 n); [lia|done].
  - destruct (Z.leb_spec n (Z.of_nat (length (Go.pending src)))) as [Hle|Hlt].
    + by rewrite Z.eqb_refl.
    + destruct (Z.eqb_spec (Z.of_nat (length (Go.pending src))) n); [lia|].
      destruct (Z.ltb_spec (Z.of_nat (length (Go.pending src))) n); [|lia].
      destruct (Go.ending src); simpl; [|done].
      by intros [= <- <-].
Qed.

(** X2. When [Handle] gets past the inbound body, the context is
    untouched and the buffer handed to the sub-requests is: under a
    positive limit the whole inbound body, which then ended cleanly
    within the limit; and the empty buffer, with nothing read, under a
    limit of zero or less. *)
Theorem inbound_body_forwarded_whole aa ctx buff ctx' :
  readRequestBody aa ctx = (Continue buff, ctx') →
  ctx' = ctx
  ∧ if 0 <? MaxBodyBytes (spec aa)
    then buff = Go.pending (ReqPayload (CtxRequest ctx))
         ∧ Go.ending (ReqPayload (CtxRequest ctx)) = Go.EOF
         ∧ Z.of_nat (length buff) <= MaxBodyBytes (spec aa)
    else buff = [].
Proof.
  intros Hread. split; [by eapply readRequestBody_Continue|].
  unfold readRequestBody in Hread.
  destruct (0 <? MaxBodyBytes (spec aa)); [|by injection Hread as <- _].
  destruct (Go.CopyN _ _) as [[buf written] err] eqn:Hcopy.
  destruct (Z.ltb_spec (MaxBodyBytes (spec aa)) written) as [|Hle]; [done|].
  case_bool_decide as Herr; [done|].
  subst err. injection Hread as <- _.
  apply CopyN_EOF in Hcopy as (-> & -> & _ & Heof). done.
Qed.

Lemma readRequestBody_Return aa ctx r ctx' :
  readRequestBody aa ctx = (Return r, ctx') →
  r = resultFailed
  ∧ ∃ code t,
      code ∈ [StatusRequestEntityTooLarge; StatusBadRequest]
      ∧ ctx' = onResponse (SetStatusCode code) (AddTag t ctx).
Proof.
  unfold readRequestBody.
  destruct (0 <? MaxBodyBytes (spec aa)); [|done].
  destruct (Go.CopyN _ _) as [[buf written] err].
  destruct (MaxBodyBytes (spec aa) <? written).
  - intros [= <- <-]. split; [done|]. do 2 eexists. split; [|done].
    apply elem_of_cons. by left.
  - case_bool_decide; [|done].
    intros [= <- <-]. split; [done|]. do 2 eexists. split; [|done].
    apply elem_of_cons. right. apply elem_of_cons. by left.
Qed.

Lemma sameButPath_refl r : sameButPath r r.
Proof. done. Qed.

Lemma sameButPath_trans r1 r2 r3 :
  sameButPath r1 r2 → sameButPath r2 r3 → sameButPath r1 r3.
Proof.
  intros (?&?&?&?) (?&?&?&?). unfold sameButPath. split_and!; congruence.
Qed.

Lemma newHTTPReq_request aa p buff ctx :
  sameButPath (CtxRequest ctx) (CtxRequest (newHTTPReq aa p buff ctx).2).
Proof. unfold newHTTPReq. simpl. by destruct (pa p). Qed.

(** Building the requests fails with status 400 and nothing else
    changed in the response; either way only the URL path of the request
    may have changed. *)
Lemma buildRequests_effect aa buff ps ctx :
  let out := buildRequests aa buff ps ctx in
  sameButPath (CtxRequest ctx) (CtxRequest out.2)
  ∧ Tags out.2 = Tags ctx
  ∧ match out.1 with
    | Continue _ => CtxResponse out.2 = CtxResponse ctx
    | Return r =>
        r = resultFailed
        ∧ CtxResponse out.2 = SetStatusCode StatusBadRequest (CtxResponse ctx)
    end.
Proof.
  revert ctx. induction ps as [|p ps IH]; intros ctx; [done|].
  cbn [buildRequests]. cbv zeta.
  pose proof (newHTTPReq_request aa p buff ctx) as Hreq.
  destruct (newHTTPReq_response aa p buff ctx) as [Hresp Htags].
  destruct (newHTTPReq aa p buff ctx) as [[req|] ctx1]; simpl in *.
  - specialize (IH ctx1). cbv zeta in IH. unfold andThen.
    destruct (buildRequests aa buff ps ctx1) as [[jobs|r] ctx2]; simpl in *;
      destruct IH as (Hreq' & Htags' & Hout).
    + split; [by eapply sameButPath_trans|]. split; congruence.
    + split; [by eapply sameButPath_trans|]. split; [congruence|].
      destruct Hout as [-> ->]. by rewrite Hresp.
  - split; [done|]. split; [done|]. by rewrite Hresp.
Qed.

Lemma collect_Return_effect aa slots data ctx r ctx' :
  collect aa slots data ctx = (Return r, ctx') →
  (∃ p, p ∈ slots.*1 ∧ ctx' = unavailable (Name p) ctx)
  ∨ ∃ code t,
      code ∈ [StatusInsufficientStorage; StatusInternalServerError]
      ∧ ctx' = onResponse (SetStatusCode code) (AddTag t ctx).
Proof.
  revert data. induction slots as [|[p resp] slots IH]; intros data Hc; [done|].
  assert (∀ data1,
             collect aa slots data1 ctx = (Return r, ctx') →
             (∃ q, q ∈ ((p, resp) :: slots).*1 ∧ ctx' = unavailable (Name q) ctx)
             ∨ ∃ code t,
                 code ∈ [StatusInsufficientStorage; StatusInternalServerError]
                 ∧ ctx' = onResponse (SetStatusCode code) (AddTag t ctx)) as Hrest.
  { intros data1 Hc1. destruct (IH _ Hc1) as [(q & Hq & ->)|Hcode]; [|by right].
    left. exists q. split; [|done]. rewrite fmap_cons. apply elem_of_cons. by right. }
  cbn [collect] in Hc. destruct resp as [rsp|].
  - destruct (RespPayload rsp) as [body|]; [|by eapply Hrest].
    pose proof (copyHTTPBody2Map_by_cases aa body ctx data (Name p)) as Hcopy.
    rewrite Hcopy in Hc. clear Hcopy.
    destruct (MaxBodyBytes (spec aa) <? 0).
    { simpl in Hc. injection Hc as _ <-. right. do 2 eexists. split; [|done].
      apply elem_of_cons. by left. }
    destruct (Z.of_nat (length (Go.pending body)) <? MaxBodyBytes (spec aa)).
    + destruct (Go.ending body); simpl in Hc; [by eapply Hrest|].
      injection Hc as _ <-. right. do 2 eexists. split; [|done].
      apply elem_of_cons. right. apply elem_of_cons. by left.
    + simpl in Hc. injection Hc as _ <-. right. do 2 eexists. split; [|done].
      apply elem_of_cons. right. apply elem_of_cons. by left.
  - destruct (PartialSucceed (spec aa)); simpl in Hc; [by eapply Hrest|].
    injection Hc as _ <-. left. exists p. split; [|done].
    rewrite fmap_cons. apply elem_of_cons. by left.
Qed.

Lemma formatResponse_effect aa range data ctx :
  let out := formatResponse aa range data ctx in
  (out.1 = "" ∧ ∃ buff, out.2 = onResponse (SetPayload (Go.NewReader buff)) ctx)
  ∨ (out.1 = resultFailed
     ∧ ∃ code t,
         code ∈ [EGStatusBadResponse; StatusInternalServerError]
         ∧ out.2 = onResponse (SetStatusCode code) (AddTag t ctx)).
Proof.
  cbv zeta. unfold formatResponse.
  set (encoded := if MergeResponse (spec aa) then _ else _).
  destruct encoded as [resp|doc].
  - right. split; [done|]. do 2 eexists. split; [|done].
    apply elem_of_cons. by left.
  - destruct (json.Marshal doc) as [buff|].
    + left. split; [done|]. by eexists.
    + right. split; [done|]. do 2 eexists. split; [|done].
      apply elem_of_cons. right. apply elem_of_cons. by left.
Qed.

End outcomes.

Section outcomes_of_Handle.
Import httpprot context apiaggregator aggregation derivation.
Context `{HeaderNames} `{json.Codec} `{Collaborators}.

Lemma failureCodes_inbound code :
  code ∈ [StatusRequestEntityTooLarge; StatusBadRequest] → code ∈ failureCodes.
Proof. unfold failureCodes. rewrite !elem_of_cons. tauto. Qed.

Lemma failureCodes_body code :
  code ∈ [StatusInsufficientStorage; StatusInternalServerError] →
  code ∈ failureCodes.
Proof. unfold failureCodes. rewrite !elem_of_cons. tauto. Qed.

Lemma failureCodes_format code :
  code ∈ [EGStatusBadResponse; StatusInternalServerError] → code ∈ failureCodes.
Proof. unfold failureCodes. rewrite !elem_of_cons. tauto. Qed.

(** X1. Every call of [Handle], whatever the inputs: the result is empty
    or [resultFailed], the one result the kind declares; of the inbound
    request only the URL path may have changed. On the empty result the
    payload is a fresh buffer, and status code, header and tags are as
    before (the status code is not set to 200). On [resultFailed] the
    payload is as before, the status code is one of 413, 400, 503, 507,
    500 and the bad-response code, the header is as before unless the
    code is 503 and the header names one of the sub-targets, and at most
    one tag was added. *)
Theorem Handle_outcomes aa sched range ctx :
  let out := Handle aa sched range ctx in
  sameButPath (CtxRequest ctx) (CtxRequest out.2)
  ∧ out.1 ∈ "" :: descriptors.Results descriptors.apiaggregatorKind
  ∧ if bool_decide (out.1 = "")
    then succeeded (CtxResponse ctx) (CtxResponse out.2)
         ∧ Tags out.2 = Tags ctx
    else failed (Pipelines (spec aa)) (CtxResponse ctx) (CtxResponse out.2)
         ∧ (Tags out.2 = Tags ctx ∨ ∃ t, Tags out.2 = Tags ctx ++ [t]).
Proof.
  cbv zeta. unfold Handle, finish, gather, fanOut, andThen.
  destruct (readRequestBody aa ctx) as [[buff|r] ctx0] eqn:Hread.
  2: { apply readRequestBody_Return in Hread as (-> & code & t & Hcode & ->).
       simpl. split; [done|]. split; [apply elem_of_cons; right; by left|].
       split; [|by right; eexists].
       split; [done|]. split; [by apply failureCodes_inbound|by left]. }
  apply readRequestBody_Continue in Hread as ->.
  pose proof (buildRequests_effect aa buff (Pipelines (spec aa)) ctx) as Hb.
  cbv zeta in Hb.
  destruct (buildRequests aa buff (Pipelines (spec aa)) ctx) as [[jobs|r] ctx2].
  2: { simpl in *. destruct Hb as (Hreq & Htags & -> & Hresp).
       split; [done|]. split; [apply elem_of_cons; right; by left|].
       simpl. split; [|by left]. rewrite Hresp.
       split; [done|]. split; [|by left].
       unfold failureCodes. simpl. rewrite !elem_of_cons. tauto. }
  simpl in Hb. destruct Hb as (Hreq & Htags & Hresp).
  destruct (collect aa (zip (Pipelines (spec aa)) (dispatch aa sched jobs)) ∅ ctx2)
    as [[data|r] ctx3] eqn:Hc.
  - destruct (collect_Continue _ _ _ _ _ _ Hc) as (-> & _).
    pose proof (formatResponse_effect aa range data ctx2) as Hf. cbv zeta in Hf.
    destruct (formatResponse aa range data ctx2) as [res ctx4]. simpl in *.
    destruct Hf as [(-> & buf & ->)|(-> & code & t & Hcode & ->)]; simpl.
    + split; [done|]. split; [by left|].
      split; [|done]. unfold succeeded. simpl. rewrite Hresp.
      split; [done|]. split; [done|]. by eexists.
    + split; [done|]. split; [apply elem_of_cons; right; by left|].
      rewrite Htags. split; [|by right; eexists]. rewrite Hresp.
      split; [done|]. split; [by apply failureCodes_format|by left].
  - pose proof (collect_Return _ _ _ _ _ _ Hc) as ->.
    apply collect_Return_effect in Hc
      as [(p & Hp & ->)|(code & t & Hcode & ->)]; simpl.
    + split; [done|]. split; [apply elem_of_cons; right; by left|].
      split; [|by left]. rewrite Hresp. split; [done|].
      split; [unfold failureCodes; rewrite !elem_of_cons; tauto|].
      right. split; [done|]. exists p. split; [|done].
      apply list_elem_of_fmap in Hp as ([p' resp] & -> & Hin).
      by apply elem_of_zip_l in Hin.
    + split; [done|]. split; [apply elem_of_cons; right; by left|].
      rewrite Htags. split; [|by right; eexists]. rewrite Hresp.
      split; [done|]. split; [by apply failureCodes_body|by left].
Qed.

(** What [newHTTPReq] gives: the request of [derived], when it is
    accepted, and the request's path after the sub-target's adaptor. *)
Lemma newHTTPReq_derived aa p buff ctx :
  let out := newHTTPReq aa p buff ctx in
  URLPath (CtxRequest out.2) = adaptPath (URLPath (CtxRequest ctx)) p
  ∧ out.1 =
      if validRequest (methodFor (CtxRequest ctx) p)
           (adaptPath (URLPath (CtxRequest ctx)) p)
      then Some {| StdMethod := methodFor (CtxRequest ctx) p;
                   StdURL := adaptPath (URLPath (CtxRequest ctx)) p;
                   StdBody := if DisableBody p then None else Some buff;
                   StdTimeout := timeout (spec aa) |}
      else None.
Proof. unfold newHTTPReq, adaptPath, methodFor. simpl. by destruct (pa p). Qed.

Lemma derived_shift aa r r1 buff p ps i q :
  sameButPath r r1 →
  URLPath r1 = adaptPath (URLPath r) p →
  derived aa r1 buff ps i q = derived aa r buff (p :: ps) (S i) q
  ∧ (accepted r1 ps i q ↔ accepted r (p :: ps) (S i) q).
Proof.
  intros (Hm & _) Hpath. unfold derived, accepted, methodFor, pathAfter.
  rewrite Hm, Hpath. done.
Qed.

Lemma buildRequests_derived aa buff ps ctx jobs ctx' :
  buildRequests aa buff ps ctx = (Continue jobs, ctx') →
  length jobs = length ps
  ∧ (∀ i p, ps !! i = Some p →
       jobs !! i = Some (Name p, derived aa (CtxRequest ctx) buff ps i p)
       ∧ accepted (CtxRequest ctx) ps i p)
  ∧ URLPath (CtxRequest ctx') = pathAfter ps (URLPath (CtxRequest ctx)).
Proof.
  revert ctx jobs ctx'.
  induction ps as [|p ps IH]; intros ctx jobs ctx' Hb; cbn [buildRequests] in Hb.
  - injection Hb as <- <-. split; [done|]. split; [|done]. by intros i p.
  - pose proof (newHTTPReq_derived aa p buff ctx) as Hnew. cbv zeta in Hnew.
    pose proof (newHTTPReq_request aa p buff ctx) as Hsame.
    destruct (newHTTPReq aa p buff ctx) as [[req|] ctx1]; [|done].
    simpl in Hnew, Hsame. destruct Hnew as [Hpath Hreq].
    unfold andThen in Hb.
    destruct (buildRequests aa buff ps ctx1) as [[jobs'|r] ctx2] eqn:Hrest; [|done].
    injection Hb as <- <-.
    destruct (IH _ _ _ Hrest) as (Hlen & Hjobs & Hfinal).
    destruct (validRequest _ _) eqn:Hvalid; [|done]. injection Hreq as ->.
    split; [simpl; by rewrite Hlen|]. split.
    + intros [|i] q Hq.
      * injection Hq as <-. split; [done|]. done.
      * destruct (Hjobs i q Hq) as [Hjob Hacc].
        destruct (derived_shift aa _ _ buff p ps i q Hsame Hpath) as [Hd Ha].
        split; [|by apply Ha]. simpl. by rewrite Hjob, Hd.
    + rewrite Hfinal, Hpath. done.
Qed.

(** X3. The requests [Handle] derives. Sub-target [i] gets its own
    method if it names one and the inbound method otherwise, the whole
    buffered body unless [DisableBody], the parsed timeout, and as path
    the inbound path run through the adaptors of all sub-targets up to
    and including [i]: the adaptors work on the one URL of the inbound
    request, so they pile up from sub-target to sub-target, and the
    inbound request keeps the path after the last. *)
Theorem derived_requests aa buff ps ctx jobs ctx' :
  buildRequests aa buff ps ctx = (Continue jobs, ctx') →
  length jobs = length ps
  ∧ (∀ i p, ps !! i = Some p →
       jobs !! i = Some (Name p, derived aa (CtxRequest ctx) buff ps i p))
  ∧ URLPath (CtxRequest ctx') = pathAfter ps (URLPath (CtxRequest ctx)).
Proof.
  intros Hb. destruct (buildRequests_derived _ _ _ _ _ _ Hb) as (Hlen & Hjobs & Hp).
  split; [done|]. split; [|done]. intros i p Hi. by destruct (Hjobs i p Hi).
Qed.

(** X4. When the inbound body has passed and the request of some
    sub-target is not accepted by [http.NewRequestWithContext], [Handle]
    returns [resultFailed] with status 400; payload, header and tags of
    the response are as before. *)
Theorem rejected_request_fails_with_400 aa sched range ctx buff i p :
  readRequestBody aa ctx = (Continue buff, ctx) →
  Pipelines (spec aa) !! i = Some p →
  ¬ accepted (CtxRequest ctx) (Pipelines (spec aa)) i p →
  let out := Handle aa sched range ctx in
  out.1 = resultFailed
  ∧ CtxResponse out.2 = SetStatusCode StatusBadRequest (CtxResponse ctx)
  ∧ Tags out.2 = Tags ctx.
Proof.
  intros Hread Hi Hrej. cbv zeta.
  unfold Handle, finish, gather, fanOut, andThen. rewrite Hread.
  pose proof (buildRequests_effect aa buff (Pipelines (spec aa)) ctx) as Hb.
  cbv zeta in Hb.
  destruct (buildRequests aa buff (Pipelines (spec aa)) ctx)
    as [[jobs|r] ctx2] eqn:Hbuild.
  - exfalso. apply Hrej.
    destruct (buildRequests_derived _ _ _ _ _ _ Hbuild) as (_ & Hjobs & _).
    by destruct (Hjobs i p Hi).
  - simpl in *. by destruct Hb as (_ & Htags & -> & Hresp).
Qed.

Lemma successBodies_none_readable aa slots :
  successBodies slots = [] → Forall (slotReadable aa) slots.
Proof.
  induction slots as [|[p resp] slots IH]; intros Hnone; [done|].
  unfold successBodies in Hnone. simpl in Hnone. fold (successBodies slots) in Hnone.
  destruct resp as [r|].
  - destruct (RespPayload r) as [body|] eqn:Hbody; [done|].
    constructor; [|by apply IH]. unfold slotReadable. simpl. by rewrite Hbody.
  - constructor; [done|by apply IH].
Qed.

(** X8. An aggregation that collects no body still succeeds: when no
    slot holds a payload (no sub-target at all, or every sub-target
    failed under partial success) [Handle] returns the empty result with
    the encoding of the empty object, or of the empty array without
    [mergeResponse]. *)
Theorem nothing_collected_still_succeeds aa sched range ctx slots ctx1 buff :
  fanOut aa sched ctx = (Continue slots, ctx1) →
  successBodies slots = [] →
  PartialSucceed (spec aa) = true ∨ Forall slotFilled slots →
  range (∅ : gmap string (list byte)) ≡ₚ map_to_list (∅ : gmap string (list byte)) →
  json.Marshal (if MergeResponse (spec aa)
                then json.DocObject (Some ∅)
                else json.DocArray []) = Some buff →
  Handle aa sched range ctx =
    ("", onResponse (SetPayload (Go.NewReader buff)) ctx1).
Proof.
  intros Hfan Hnone Hfill Hrange Hm.
  pose proof (successBodies_none_readable aa slots Hnone) as Hread.
  rewrite map_to_list_empty in Hrange. apply Permutation_nil_r in Hrange.
  erewrite Handle_gathered.
  2: { rewrite (gather_fanOut _ _ _ _ _ Hfan).
       rewrite collect_readable by done. by rewrite Hnone. }
  apply formatResponse_objects; simpl; rewrite Hrange; [done|].
  unfold aggregate. simpl. by destruct (MergeResponse (spec aa)).
Qed.

Lemma Unmarshal_error body m :
  json.decode body = json.DecError → json.Unmarshal body m = None.
Proof. unfold json.Unmarshal. by intros ->. Qed.

Lemma Unmarshal_no_error body m :
  json.decode body ≠ json.DecError → is_Some (json.Unmarshal body m).
Proof. unfold json.Unmarshal. by destruct (json.decode body). Qed.

Lemma mergeBodies_first_error pre body post result :
  Forall (fun b => json.decode b ≠ json.DecError) pre →
  json.decode body = json.DecError →
  mergeBodies (pre ++ body :: post) result = inl body.
Proof.
  revert result. induction pre as [|b pre IH]; intros result Hpre Hbad.
  - simpl. by rewrite Unmarshal_error.
  - apply Forall_cons in Hpre as [Hb Hpre]. simpl.
    destruct (Unmarshal_no_error b result Hb) as [result' ->]. by apply IH.
Qed.

Lemma appendBodies_first_error pre body post result :
  Forall (fun b => json.decode b ≠ json.DecError) pre →
  json.decode body = json.DecError →
  appendBodies (pre ++ body :: post) result = inl body.
Proof.
  revert result. induction pre as [|b pre IH]; intros result Hpre Hbad.
  - simpl. by rewrite Unmarshal_error.
  - apply Forall_cons in Hpre as [Hb Hpre]. simpl.
    destruct (Unmarshal_no_error b (Some ∅) Hb) as [ele ->]. by apply IH.
Qed.

(** X9. A collected body that does not decode fails the aggregation as a
    bad response: [Handle] returns [resultFailed] with the bad-response
    status code and tags the first such body in the order in which the
    map is visited; with and without [mergeResponse]. *)
Theorem undecodable_body_is_a_bad_response
    aa sched range ctx data ctx1 pre name body post :
  gather aa sched ctx = (Continue data, ctx1) →
  range data = pre ++ (name, body) :: post →
  Forall (fun entry => json.decode entry.2 ≠ json.DecError) pre →
  json.decode body = json.DecError →
  Handle aa sched range ctx =
    (resultFailed,
     onResponse (SetStatusCode EGStatusBadResponse)
       (AddTag (TagUnmarshalFailed body) ctx1)).
Proof.
  intros Hg Hrange Hpre Hbad.
  rewrite (Handle_gathered _ _ _ _ _ _ Hg). unfold formatResponse.
  rewrite Hrange, fmap_app, fmap_cons. simpl.
  assert (Forall (fun b => json.decode b ≠ json.DecError) pre.*2) as Hpre'.
  { by apply Forall_fmap. }
  rewrite mergeBodies_first_error, appendBodies_first_error by done.
  by destruct (MergeResponse (spec aa)).
Qed.

End outcomes_of_Handle.

(* ===================================================================== *)
(** * Further properties of the certificate extractor *)
(* ===================================================================== *)

Section index_arithmetic.
Import httpprot context certextractor.
Context `{HeaderNames}.

Lemma int16_small z : Go.in_int16 z → Go.int16 z = z.
Proof.
  unfold Go.in_int16, Go.int16, Go.wrap. intros Hz.
  change (2 ^ (16 - 1)) with 32768. change (2 ^ 16) with 65536.
  change (2 ^ 15) with 32768 in Hz.
  rewrite Z.mod_small; lia.
Qed.

Lemma rem_small_signed i n : - n < i < n → Z.rem i n = i.
Proof.
  intros Hi. destruct (Z.lt_ge_cases i 0).
  - replace i with (- - i) at 1 by lia.
    rewrite Z.rem_opp_l, Z.rem_small by lia. lia.
  - apply Z.rem_small. lia.
Qed.

(** What [handle] does once the index is known to be in range. *)
Lemma handle_at_index ce ctx cs k cert :
  TLS (CtxRequest ctx) = Some cs →
  certIndex ce (length (PeerCertificates cs)) = Go.Done k →
  0 <= k →
  PeerCertificates cs !! Z.to_nat k = Some cert →
  Handle ce ctx =
    Go.Done ("", onRequest
                   (addValues (headerKey ce)
                      (fieldValues (Field (spec ce))
                         (if bool_decide (Target (spec ce) = "subject")
                          then Subject cert else Issuer cert)))
                   ctx).
Proof.
  intros Htls Hidx Hk Hcert. unfold Handle, handle. rewrite Htls.
  pose proof (lookup_lt_Some _ _ _ Hcert) as Hlt.
  destruct (Nat.ltb_spec (length (PeerCertificates cs)) 1); [lia|].
  rewrite Hidx. cbn [Go.exec_bind]. unfold Go.index.
  destruct (Z.ltb_spec k 0); [lia|].
  destruct (Z.leb_spec (Z.of_nat (length (PeerCertificates cs))) k); [lia|].
  cbn [orb]. by rewrite Hcert.
Qed.

(** X12. The comment in [handle], "positive from the beginning, negative
    from the end", holds for every index within the list: of [n]
    certificates (at most 32767), an index [i] with [0 <= i < n] selects
    certificate [i] counted from 0, provided [n + i] fits 16 bits, and an
    index [-n <= i < 0] selects certificate [n + i], the [-i]-th from the
    end. *)
Theorem index_counts_from_either_end ce ctx cs :
  let certs := PeerCertificates cs in
  let n := Z.of_nat (length certs) in
  let i := CertIndex (spec ce) in
  let k := if i <? 0 then n + i else i in
  TLS (CtxRequest ctx) = Some cs →
  0 < n <= 32767 →
  - n <= i < n →
  (0 <= i → n + i <= 32767) →
  certIndex ce (length certs) = Go.Done k
  ∧ ∃ cert,
      certs !! Z.to_nat k = Some cert
      ∧ Handle ce ctx =
          Go.Done ("", onRequest
                         (addValues (headerKey ce)
                            (fieldValues (Field (spec ce))
                               (if bool_decide (Target (spec ce) = "subject")
                                then Subject cert else Issuer cert)))
                         ctx).
Proof.
  intros certs n i k Htls Hn Hi Hsum.
  assert (0 <= k < n) as Hk by (subst k; destruct (Z.ltb_spec i 0); lia).
  assert (certIndex ce (length certs) = Go.Done k) as Hidx.
  { unfold certIndex, Go.rem, Go.exec_bind. fold n i.
    rewrite (int16_small n) by (unfold Go.in_int16; lia).
    destruct (Z.eqb_spec n 0); [lia|]. f_equal. subst k.
    destruct (Z.ltb_spec i 0) as [Hneg|Hpos].
    - destruct (decide (i = - n)) as [->|Hne].
      + rewrite Z.rem_opp_l, Z.rem_same by lia.
        rewrite int16_small by (unfold Go.in_int16; lia).
        replace (n + - 0) with n by lia. rewrite Z.rem_same by lia. lia.
      + rewrite (rem_small_signed i n) by lia.
        rewrite int16_small by (unfold Go.in_int16; lia).
        apply Z.rem_small. lia.
    - rewrite (rem_small_signed i n) by lia.
      rewrite int16_small by (unfold Go.in_int16; lia).
      rewrite Z.rem_mod_nonneg by lia.
      replace (n + i) with (i + 1 * n) by lia.
      rewrite Z_mod_plus_full. apply Z.mod_small. lia. }
  split; [done|].
  destruct (lookup_lt_is_Some_2 certs (Z.to_nat k)) as [cert Hcert]; [lia|].
  exists cert. split; [done|].
  apply (handle_at_index ce ctx cs k cert); [done|done|lia|done].
Qed.

(** X13. Past the 16 bits: of [n] certificates, an index [0 <= i < n]
    with [n + i > 32767] (so [n > 16384]) does not select certificate
    [i]. The sum wraps to a negative number and [handle] panics on the
    index, except for [i = 65536 - 2n], where the remainder is 0 and the
    first certificate is taken. *)
Theorem index_sum_overflow ce ctx cs :
  let certs := PeerCertificates cs in
  let n := Z.of_nat (length certs) in
  let i := CertIndex (spec ce) in
  TLS (CtxRequest ctx) = Some cs →
  n <= 32767 →
  0 <= i < n →
  32767 < n + i →
  if bool_decide (i = 65536 - 2 * n)
  then certIndex ce (length certs) = Go.Done 0
  else Handle ce ctx = Go.Panic "index out of range".
Proof.
  intros certs n i Htls Hn Hi Hsum.
  assert (certIndex ce (length certs)
          = Go.Done (- Z.rem (65536 - n - i) n)) as Hidx.
  { unfold certIndex, Go.rem, Go.exec_bind. fold n i.
    rewrite (int16_small n) by (unfold Go.in_int16; lia).
    destruct (Z.eqb_spec n 0); [lia|]. f_equal.
    rewrite (rem_small_signed i n) by lia.
    unfold Go.int16, Go.wrap.
    change (2 ^ (16 - 1)) with 32768. change (2 ^ 16) with 65536.
    replace (n + i + 32768) with ((n + i - 32768) + 1 * 65536) by lia.
    rewrite Z_mod_plus_full, Z.mod_small by lia.
    replace (n + i - 32768 - 32768) with (- (65536 - n - i)) by lia.
    apply Z.rem_opp_l. lia. }
  case_bool_decide as Hi0.
  - rewrite Hidx. replace (65536 - n - i) with n by lia.
    rewrite Z.rem_same by lia. done.
  - assert (0 < Z.rem (65536 - n - i) n) as Hpos.
    { rewrite Z.rem_mod_nonneg by lia.
      destruct (Z.lt_ge_cases (65536 - n - i) n).
      - rewrite Z.mod_small by lia. lia.
      - replace (65536 - n - i) with ((65536 - 2 * n - i) + 1 * n) by lia.
        rewrite Z_mod_plus_full, Z.mod_small by lia. lia. }
    unfold Handle, handle. rewrite Htls. fold certs.
    destruct (Nat.ltb_spec (length certs) 1); [lia|].
    rewrite Hidx. cbn [Go.exec_bind]. unfold Go.index.
    destruct (Z.ltb_spec (- Z.rem (65536 - n - i) n) 0); [done|lia].
Qed.

End index_arithmetic.

(* ===================================================================== *)
(** * Further properties of the fallback *)
(* ===================================================================== *)

Section mock_headers.
Import httpprot fallback mocking.
Context `{HeaderNames}.

(** The header after a run of [Set] calls, name by name. *)
Lemma setHeaders_lookup (entries : list (string * string)) w c :
  RespHeader (foldl (fun w kv => SetHeader kv.1 kv.2 w) w entries) !! c
  = finalValue c entries (RespHeader w !! c).
Proof.
  unfold finalValue. revert w.
  induction entries as [|[k v] entries IH]; intros w; [done|].
  cbn [foldl]. rewrite IH. f_equal.
  unfold SetHeader, HeaderSet. simpl.
  rewrite lookup_insert. by repeat case_decide; repeat case_bool_decide.
Qed.

Lemma finalValue_cons c kv entries init :
  finalValue c (kv :: entries) init
  = finalValue c entries
      (if bool_decide (canonicalKey kv.1 = c) then Some [kv.2] else init).
Proof. done. Qed.

(** Either no entry denotes the name, or what was there before does not
    matter. *)
Lemma finalValue_cases c entries :
  (∀ init, finalValue c entries init = init)
  ∨ ∃ v, ∀ init, finalValue c entries init = Some [v].
Proof.
  induction entries as [|[k v] entries IH]; [by left|].
  destruct IH as [Hkeep|[v' Hset]].
  - destruct (decide (canonicalKey k = c)) as [Hk|Hk].
    + right. exists v. intros init.
      by rewrite finalValue_cons, Hkeep, bool_decide_eq_true_2.
    + left. intros init.
      by rewrite finalValue_cons, Hkeep, bool_decide_eq_false_2.
  - right. exists v'. intros init. by rewrite finalValue_cons, Hset.
Qed.

Lemma finalValue_other c entries init :
  c ∉ canonicalKey <$> entries.*1 → finalValue c entries init = init.
Proof.
  revert init. induction entries as [|[k v] entries IH]; intros init Hnot; [done|].
  rewrite !fmap_cons in Hnot. apply not_elem_of_cons in Hnot as [Hne Hnot].
  rewrite finalValue_cons, IH by done.
  by rewrite bool_decide_eq_false_2.
Qed.

Lemma finalValue_member entries k v init :
  NoDup (canonicalKey <$> entries.*1) →
  (k, v) ∈ entries →
  finalValue (canonicalKey k) entries init = Some [v].
Proof.
  revert init. induction entries as [|[k' v'] entries IH]; intros init Hnd Hin.
  - by apply elem_of_nil in Hin.
  - rewrite !fmap_cons in Hnd. apply NoDup_cons in Hnd as [Hfresh Hnd].
    rewrite finalValue_cons.
    apply elem_of_cons in Hin as [[= <- <-]|Hin].
    + rewrite finalValue_other by done. by rewrite bool_decide_eq_true_2.
    + by apply IH.
Qed.

Lemma SetHeader_lookup key value w c :
  RespHeader (SetHeader key value w) !! c
  = if decide (canonicalKey key = c) then Some [value] else RespHeader w !! c.
Proof. unfold SetHeader, HeaderSet. simpl. apply lookup_insert. Qed.

(** The header of a response rewritten by [Fallback], name by name. *)
Lemma Fallback_lookup f range w c :
  RespHeader (Fallback_Fallback f range w) !! c
  = finalValue c (range (MockHeaders (spec f)))
      (if decide (canonicalKey KeyContentLength = c)
       then Some [bodyLength f] else RespHeader w !! c).
Proof.
  unfold Fallback_Fallback. cbn [SetPayload RespHeader].
  by rewrite setHeaders_lookup, SetHeader_lookup.
Qed.

Lemma Fallback_rest f range w :
  StatusCode (Fallback_Fallback f range w) = MockCode (spec f)
  ∧ RespPayload (Fallback_Fallback f range w) = Some (Go.NewReader (mockBody f)).
Proof. unfold Fallback_Fallback. simpl. by rewrite setHeaders_rest. Qed.

Lemma Response_eq (w1 w2 : Response) :
  StatusCode w1 = StatusCode w2 →
  RespHeader w1 = RespHeader w2 →
  RespPayload w1 = RespPayload w2 →
  w1 = w2.
Proof. destruct w1, w2. simpl. by intros -> -> ->. Qed.

(** X15. [Fallback] is idempotent: on a response that a fallback has
    already rewritten, the same fallback, visiting its mock headers in
    the same order, changes nothing. *)
Theorem Fallback_idempotent f range w :
  Fallback_Fallback f range (Fallback_Fallback f range w)
  = Fallback_Fallback f range w.
Proof.
  apply Response_eq.
  - by rewrite !(proj1 (Fallback_rest _ _ _)).
  - apply map_eq. intros c. rewrite !Fallback_lookup.
    case_decide; [done|].
    destruct (finalValue_cases c (range (MockHeaders (spec f))))
      as [Hkeep|[v Hset]]; [by rewrite !Hkeep|by rewrite !Hset].
  - by rewrite !(proj2 (Fallback_rest _ _ _)).
Qed.

(** X14. When no two mock headers denote the same header, the response
    [Fallback] leaves does not depend on the order in which the mock
    headers are visited. *)
Theorem Fallback_any_order f range1 range2 w :
  range1 (MockHeaders (spec f)) ≡ₚ map_to_list (MockHeaders (spec f)) →
  range2 (MockHeaders (spec f)) ≡ₚ map_to_list (MockHeaders (spec f)) →
  NoDup (canonicalKey <$> (map_to_list (MockHeaders (spec f))).*1) →
  Fallback_Fallback f range1 w = Fallback_Fallback f range2 w.
Proof.
  intros Hr1 Hr2 Hnd. apply Response_eq.
  - by rewrite !(proj1 (Fallback_rest _ _ _)).
  - apply map_eq. intros c. rewrite !Fallback_lookup.
    set (init := if decide _ then _ else _).
    destruct (decide (c ∈ canonicalKey <$> (map_to_list (MockHeaders (spec f))).*1))
      as [Hin|Hnot].
    + apply list_elem_of_fmap in Hin as (k & -> & Hk).
      apply list_elem_of_fmap in Hk as ([k' v] & -> & Hkv). simpl.
      rewrite !finalValue_member with (v := v); by rewrite ?Hr1, ?Hr2.
    + rewrite !finalValue_other; by rewrite ?Hr1, ?Hr2.
  - by rewrite !(proj2 (Fallback_rest _ _ _)).
Qed.

(** X16. [Fallback] replaces and never appends: a mock header ends with
    its configured value as the only value, whatever values the response
    had under that name; and a header that is neither the content length
    nor named by a mock header keeps its values. *)
Theorem Fallback_replaces_values f range w :
  let w' := Fallback_Fallback f range w in
  range (MockHeaders (spec f)) ≡ₚ map_to_list (MockHeaders (spec f)) →
  NoDup (canonicalKey <$> (map_to_list (MockHeaders (spec f))).*1) →
  (∀ k v, MockHeaders (spec f) !! k = Some v →
          HeaderValues (RespHeader w') k = [v])
  ∧ (∀ key,
       canonicalKey key ≠ canonicalKey KeyContentLength →
       canonicalKey key ∉ canonicalKey <$> (map_to_list (MockHeaders (spec f))).*1 →
       HeaderValues (RespHeader w') key = HeaderValues (RespHeader w) key).
Proof.
  intros w' Hrange Hnd. subst w'. unfold HeaderValues. split.
  - intros k v Hkv. rewrite Fallback_lookup.
    rewrite finalValue_member with (v := v); [done|by rewrite Hrange|].
    rewrite Hrange. by apply elem_of_map_to_list.
  - intros key Hcl Hnot. rewrite Fallback_lookup.
    rewrite finalValue_other by (by rewrite Hrange).
    by case_decide.
Qed.

End mock_headers.

(* ===================================================================== *)
(** * The [service] commands *)
(* ===================================================================== *)

Section service_commands.
Import command.
Context `{Package}.

(** X17. [delete] and [get] take exactly one argument: on any other
    number of arguments the run ends with the error of [Args] and no
    request is made; on one argument, the service name, the command makes
    one request without a body to the URL of that service, a DELETE or a
    GET. [Run] by itself panics on an empty argument list; behind the
    check of [Args] it never does. *)
Theorem service_name_is_the_one_argument specFile args :
  Run deleteServiceCmd specFile [] = Go.Panic "index out of range"
  ∧ Run getServiceCmd specFile [] = Go.Panic "index out of range"
  ∧ execute deleteServiceCmd specFile args =
    match args with
    | [name] => inr (Go.Done {| callMethod := "DELETE";
                                callURL := makeURL MeshServiceURL [name];
                                callBody := None |})
    | _ => inl "requires one service name to be deleted"
    end
  ∧ execute getServiceCmd specFile args =
    match args with
    | [name] => inr (Go.Done {| callMethod := "GET";
                                callURL := makeURL MeshServiceURL [name];
                                callBody := None |})
    | _ => inl "requires one service name to be retrieved"
    end.
Proof. split_and!; [done|done|..]; by destruct args as [|name [|other args]]. Qed.

End service_commands.

(* ===================================================================== *)
(** * Worked examples for the further properties *)
(* ===================================================================== *)

Section further_examples.
Import httpprot context apiaggregator aggregation derivation sample sample_more.

(** An inbound body of 7 bytes under a limit of 100 is forwarded whole. *)
Lemma inbound_body_forwarded_whole_witness :
  let aa := aggregator 100 false true [target "a"] body_x1 body_x2 in
  readRequestBody aa (inboundWith body_x1) = (Continue body_x1, inboundWith body_x1)
  ∧ Go.ending (ReqPayload (CtxRequest (inboundWith body_x1))) = Go.EOF.
Proof.
  intros aa. split; [by vm_compute|].
  destruct (inbound_body_forwarded_whole aa (inboundWith body_x1) body_x1
              (inboundWith body_x1)) as (_ & _ & Heof & _).
  - by vm_compute.
  - exact Heof.
Defined.

(** Sub-targets [a] and [c] append [/v1] and [/x] to the path, [b] has
    no adaptor and sends no body: [b] and [c] see the suffix of [a]. *)
Lemma derived_requests_witness :
  let aa := aggregator 100 false true [] body_x1 body_x2 in
  let ps := [suffixed "a" "/v1"; bodiless "b" "POST"; suffixed "c" "/x"] in
  ∃ jobs ctx',
    buildRequests aa body_x1 ps inbound = (Continue jobs, ctx')
    ∧ jobs.*2 =
        [ {| StdMethod := "GET"; StdURL := "//v1"; StdBody := Some body_x1;
             StdTimeout := None |};
          {| StdMethod := "POST"; StdURL := "//v1"; StdBody := None;
             StdTimeout := None |};
          {| StdMethod := "GET"; StdURL := "//v1/x"; StdBody := Some body_x1;
             StdTimeout := None |} ]
    ∧ URLPath (CtxRequest ctx') = "//v1/x".
Proof.
  intros aa ps.
  destruct (buildRequests aa body_x1 ps inbound) as [[jobs|r] ctx'] eqn:Hb;
    [|by vm_compute in Hb].
  exists jobs, ctx'. split; [done|].
  destruct (derived_requests aa body_x1 ps inbound jobs ctx' Hb)
    as (Hlen & Hjobs & Hpath).
  split; [|exact Hpath].
  destruct jobs as [|j0 [|j1 [|j2 [|j3 jobs]]]]; try done.
  pose proof (Hjobs 0%nat _ eq_refl) as H0. injection H0 as ->.
  pose proof (Hjobs 1%nat _ eq_refl) as H1. injection H1 as ->.
  pose proof (Hjobs 2%nat _ eq_refl) as H2. injection H2 as ->.
  done.
Defined.

(** The method [G T] is turned down: status 400. *)
Lemma rejected_request_fails_with_400_witness :
  let aa := strictAggregator [strictTarget "a" ""; strictTarget "b" "G T"] in
  (@Handle verbatimNames flatCodec strict aa [0; 1]%nat ascending inbound).1
    = resultFailed
  ∧ CtxResponse (@Handle verbatimNames flatCodec strict aa [0; 1]%nat
                   ascending inbound).2
    = SetStatusCode 400 (CtxResponse inbound).
Proof.
  intros aa.
  destruct (@rejected_request_fails_with_400 verbatimNames flatCodec strict
              aa [0; 1]%nat ascending inbound [] 1%nat (strictTarget "b" "G T"))
    as (Hres & Hresp & _).
  - by vm_compute.
  - done.
  - by vm_compute.
  - by split.
Defined.

(** Partial success is on, [c] is not installed, and [a] answers with
    the 7 bytes of [{"x":1}] under a limit of 7: the call fails. *)
Lemma unreadable_body_fails_aggregation_witness :
  let aa := aggregator 7 true true [target "c"; target "a"; target "b"]
              body_x1 body_x2 in
  (Handle aa [0; 1; 2]%nat ascending inbound).1 = resultFailed
  ∧ StatusCode (CtxResponse (Handle aa [0; 1; 2]%nat ascending inbound).2) = 500.
Proof.
  intros aa.
  destruct (unreadable_body_fails_aggregation aa [0; 1; 2]%nat ascending inbound
              [(target "c", None)] (target "a") (respond 200 body_x1)
              (Go.NewReader body_x1) [(target "b", Some (respond 200 body_x2))]
              inbound)
    as (Hres & Hstatus & _).
  - done.
  - by vm_compute.
  - done.
  - unfold readable. simpl. lia.
  - repeat constructor.
  - by left.
  - by split.
Defined.

(** Under partial success with [c] not installed and [down] answering
    502, the output is [{}]. *)
Lemma nothing_collected_still_succeeds_witness :
  let aa := aggregator 100 true true [target "c"; target "down"] body_x1 body_x2 in
  Handle aa [1; 0]%nat descending inbound =
    ("", onResponse (SetPayload (Go.NewReader body_empty)) inbound).
Proof.
  intros aa.
  apply (nothing_collected_still_succeeds aa [1; 0]%nat descending inbound
           [(target "c", None); (target "down", None)] inbound body_empty).
  - by vm_compute.
  - done.
  - by left.
  - apply descending_valid.
  - by vm_compute.
Defined.

(** Sub-target [a] answers [oops]. *)
Lemma undecodable_body_is_a_bad_response_witness :
  let aa := aggregator 100 false true [target "a"] body_oops body_x2 in
  Handle aa [0]%nat ascending inbound =
    (resultFailed,
     onResponse (SetStatusCode 599) (AddTag (TagUnmarshalFailed body_oops) inbound)).
Proof.
  intros aa.
  apply (undecodable_body_is_a_bad_response aa [0]%nat ascending inbound
           {[ "a" := body_oops ]} inbound [] "a" body_oops []).
  - by vm_compute.
  - by vm_compute.
  - constructor.
  - by vm_compute.
Defined.

(** Index -2 of three certificates is the second. *)
Lemma index_counts_from_either_end_witness :
  certextractor.certIndex (extractor (-2)) 3 = Go.Done 1
  ∧ ∃ cert,
      PeerCertificates threeCertificates !! 1%nat = Some cert
      ∧ certextractor.Handle (extractor (-2)) overTLS =
          Go.Done ("", onRequest
                         (certextractor.addValues "X-CN"
                            (certextractor.fieldValues "CommonName" (Subject cert)))
                         overTLS).
Proof.
  apply (index_counts_from_either_end (extractor (-2)) overTLS threeCertificates).
  - done.
  - simpl. lia.
  - simpl. lia.
  - simpl. lia.
Defined.

(** Index 19999 of 20000 certificates. *)
Lemma index_sum_overflow_witness :
  certextractor.Handle (extractor 19999) overManyCertificates
  = Go.Panic "index out of range".
Proof.
  apply (index_sum_overflow (extractor 19999) overManyCertificates
           {| PeerCertificates := replicate (Z.to_nat 20000) (certificate "cn") |}).
  - done.
  - by vm_compute.
  - by vm_compute.
  - by vm_compute.
Defined.

Lemma Fallback_any_order_witness :
  fallback.Fallback_Fallback (fallback.New mockPlain) ascending answered
  = fallback.Fallback_Fallback (fallback.New mockPlain) descending answered.
Proof.
  apply Fallback_any_order.
  - done.
  - apply reverse_Permutation.
  - by_evaluation.
Defined.

(** The response had two values under [X-Mock] and a [Server] header. *)
Lemma Fallback_replaces_values_witness :
  let w' := fallback.Fallback_Fallback (fallback.New mockPlain) descending answered in
  HeaderValues (RespHeader w') "X-Mock" = ["yes"]
  ∧ HeaderValues (RespHeader w') "Server" = ["eg"].
Proof.
  intros w'.
  destruct (Fallback_replaces_values (fallback.New mockPlain) descending answered)
    as [Hset Hkept].
  - apply reverse_Permutation.
  - by_evaluation.
  - split.
    + by apply Hset.
    + rewrite Hkept; [done|done|]. by_evaluation.
Defined.

End further_examples.

Section slots_and_merge.
Import httpprot context apiaggregator aggregation sample.

Section general.
Context `{HeaderNames} `{json.Codec} `{Collaborators}.

(** X10. Whatever workers have completed when the slots are read, and
    in whatever order: there is one slot per sub-target, in the order of
    the sub-target list, and a slot is empty or holds the response that
    the pipeline of its own sub-target gave, with status 200. *)
Theorem slots_hold_own_200_responses aa sched ctx slots ctx1 :
  fanOut aa sched ctx = (Continue slots, ctx1) →
  slots.*1 = Pipelines (spec aa)
  ∧ ∀ i p rsp,
      slots !! i = Some (p, Some rsp) →
      StatusCode rsp = 200
      ∧ ∃ handler req,
          GetHTTPPipeline (rctc aa) (Name p) = Some handler
          ∧ handler req = Some rsp.
Proof.
  unfold fanOut, andThen.
  destruct (readRequestBody aa ctx) as [[buff|r] ctx0] eqn:Hread; [|done].
  destruct (buildRequests aa buff (Pipelines (spec aa)) ctx0)
    as [[jobs|r] ctx2] eqn:Hjobs; [|done].
  apply buildRequests_Continue in Hjobs as (Hlen & Hnames & _).
  intros [= <- <-].
  assert (length (dispatch aa sched jobs) = length jobs) as Hdl.
  { assert (∀ l, length (foldl (complete aa jobs) l sched) = length l) as Hfold.
    { induction sched as [|i sched IH]; intros l; [done|].
      cbn [foldl]. by rewrite IH, complete_length. }
    unfold dispatch. rewrite Hfold. apply length_replicate. }
  split; [apply fst_zip; lia|].
  intros i p rsp Hslot.
  apply lookup_zip_with_Some in Hslot as (p' & slot & [= <- <-] & Hp & Hs).
  unfold dispatch in Hs. rewrite completed_lookup in Hs by apply length_replicate.
  case_bool_decide.
  2: { apply lookup_replicate in Hs as [? _]. done. }
  destruct (jobs !! i) as [[name req]|] eqn:Hjob; [|done].
  injection Hs as Hw.
  apply worker_Some in Hw as (handler & Hh & Hr & Hstatus). simpl in Hh, Hr.
  assert (name = Name p) as ->.
  { assert (jobs.*1 !! i = Some name) as Hn by (by rewrite list_lookup_fmap, Hjob).
    rewrite Hnames, list_lookup_fmap, Hp in Hn. by injection Hn. }
  split; [done|]. by exists handler, req.
Qed.

Lemma merge_lookup_later objs acc key :
  Forall (fun o : gmap string json.Value => o !! key = None) objs →
  foldl (fun acc o => o ∪ acc) acc objs !! key = acc !! key.
Proof.
  revert acc. induction objs as [|o objs IH]; intros acc Hnone; [done|].
  apply Forall_cons in Hnone as [Ho Hnone]. cbn [foldl].
  rewrite IH by done. rewrite lookup_union_r; done.
Qed.

(** X11. In merge mode a key holds the value of the last body visited
    that has the key: when all bodies visited are JSON objects, the
    merge runs through, a key of some body has in the merged object the
    value from the last body that has it, and a key of no body is not in
    the merged object. *)
Theorem merge_keeps_last_value pre body post key v :
  Forall isObject (pre ++ body :: post) →
  objectOf body !! key = Some v →
  Forall (fun b => objectOf b !! key = None) post →
  ∃ m, mergeBodies (pre ++ body :: post) (Some ∅) = inr (Some m)
       ∧ m !! key = Some v
       ∧ ∀ other,
           Forall (fun b => objectOf b !! other = None) (pre ++ body :: post) →
           m !! other = None.
Proof.
  intros Hobj Hkey Hpost. eexists. split; [by apply mergeBodies_objects|].
  split.
  - rewrite fmap_app, fmap_cons, foldl_app. cbn [foldl].
    rewrite merge_lookup_later by (by apply Forall_fmap).
    by apply lookup_union_Some_l.
  - intros other Hnone. rewrite merge_lookup_later by (by apply Forall_fmap).
    done.
Qed.

End general.

(** Pipelines [a] and [down]: [a] answered 200, [down] 502. *)
Lemma slots_hold_own_200_responses_witness :
  let aa := aggregator 100 true true [target "a"; target "down"] body_x1 body_x2 in
  ∃ slots,
    fanOut aa [1; 0]%nat inbound = (Continue slots, inbound)
    ∧ slots.*1 = [target "a"; target "down"]
    ∧ slots.*2 = [Some (respond 200 body_x1); None].
Proof.
  intros aa. eexists. split; [by vm_compute|]. split; [|done].
  refine (proj1 (slots_hold_own_200_responses aa [1; 0]%nat inbound _ inbound _)).
  by vm_compute.
Defined.

(** Bodies [{"x":1}], [{"x":2}], [{"y":2}] in this order: [x] is 2. *)
Lemma merge_keeps_last_value_witness :
  ∃ m, mergeBodies [body_x1; body_x2; body_y2] (Some ∅) = inr (Some m)
       ∧ m !! "x" = Some (json.Number 2).
Proof.
  destruct (merge_keeps_last_value [body_x1] body_x2 [body_y2] "x" (json.Number 2))
    as (m & Hm & Hx & _).
  - repeat constructor.
  - by vm_compute.
  - repeat constructor.
  - by exists m.
Defined.

End slots_and_merge.

(** ** The goroutines of [Handle] *)

Section goroutines.
Import httpprot context apiaggregator goroutines.
Context `{HeaderNames} `{json.Codec} `{Collaborators}.








End goroutines.

Section goroutines_runs.
Import httpprot context apiaggregator goroutines.
Context `{HeaderNames} `{json.Codec} `{Collaborators}.







End goroutines_runs.

(** ** Worked examples: the goroutines of [Handle] *)

Section goroutines_examples.
Import httpprot context apiaggregator goroutines sample sample_more.



End goroutines_examples.
